(** * Strategy registration and resharding costs of [NodeHandler]

    A shallow embedding of
    [colossalai/auto_parallel/tensor_shard/node_handler/node_handler.py]:
    [NodeHandler.__init__], [NodeHandler.update_resharding_cost],
    [NodeHandler.register_strategy], [NodeHandler.post_process] and
    [ModuleHandler.__init__].

    The list objects that the code mutates in place or reads through a node
    (the strategies vector a handler extends, the [strategies_vector]
    attribute of a predecessor) live in an explicit store, addressed by the
    identity of the list, so that a handler and a node may share one vector.
    An exception leaves the store as it was when it was raised.  Calls that
    leave the handler (the layout transition oracle, the validity check) and
    the entries into [update_resharding_cost] are recorded in a call log
    carried by the store, so that "is never called" is a statement about that
    log.

    A strategy is carried by value: [update_resharding_cost] reads only the
    [sharding_specs] of the strategy it is given and assigns only its
    [resharding_costs], so the result is the strategy with that one field
    replaced.  This is what the method does to the strategies that
    [register_strategy] hands to it, which are in no vector yet; the
    assignment of line 80 to a strategy that is already an entry of a vector
    would show in that entry too, and no statement below is about that
    case.  The classes and functions that the file imports from the rest
    of the package are modelled from the spec, or taken as parameters, as said
    where they are introduced. *)

From Stdlib Require Import ZArith Ascii String.
From stdpp Require Import base decidable option list strings gmap.

Local Open Scope string_scope.
Local Open Scope list_scope.
Local Open Scope Z_scope.

(** ** Data model *)

(** The meta data of a [torch.Tensor]: its size along every dimension. *)
Record Tensor := mkTensor { shape : list Z }.

(** What [OperationData.data] may hold: [None], a tensor, or any other Python
    object (an [int], a tuple, ...), of which only the printed form is kept. *)
Inductive PyData :=
| PyNone
| PyTensor (t : Tensor)
| PyObject (repr : string).

Inductive OperationDataType := ARG | PARAM | BUFFER | OUTPUT.

Record OperationData := mkOperationData {
  name : string;
  type : OperationDataType;
  data : PyData
}.

(** The logical grid of devices: the size of every mesh axis. *)
Record DeviceMesh := mkDeviceMesh { mesh_shape : list Z }.

(** Modelled from the spec: the class [ShardingSpec] is imported by the source
    and not defined in it.  A partition layout maps a tensor dimension to the
    mesh axes it is sharded over; a dimension that is absent, or mapped to no
    axis, is replicated. *)
Record ShardingSpec := mkShardingSpec {
  layout_mesh : DeviceMesh;
  dim_partition : list (nat * list nat)
}.

(** [TrainCycleItem(fwd=..., bwd=..., total=...)]. *)
Record TrainCycleItem := mkTrainCycleItem { fwd : Z; bwd : Z; total : Z }.

(** The third component of what [ShapeConsistencyManager.shape_consistency]
    returns: a dictionary with the keys ["forward"], ["backward"], ["total"]. *)
Record ReshardingCost := mkReshardingCost {
  cost_forward : Z;
  cost_backward : Z;
  cost_total : Z
}.

(** Object identities. *)
Definition NodeRef := nat.
Definition VecRef := nat.

(** Keys of a Python dictionary, for the two classes of key that the source
    uses with [resharding_costs]: a graph node (line 68) and an operation data
    (the membership test of line 67).  Objects of different classes are
    different keys. *)
Inductive DictKey :=
| KNode (n : NodeRef)
| KOperationData (op : OperationData).

#[global] Instance Tensor_eq_dec : EqDecision Tensor.
Proof. solve_decision. Defined.
#[global] Instance PyData_eq_dec : EqDecision PyData.
Proof. solve_decision. Defined.
#[global] Instance OperationDataType_eq_dec : EqDecision OperationDataType.
Proof. solve_decision. Defined.
#[global] Instance OperationData_eq_dec : EqDecision OperationData.
Proof. solve_decision. Defined.
#[global] Instance DictKey_eq_dec : EqDecision DictKey.
Proof. solve_decision. Defined.
#[global] Instance DeviceMesh_eq_dec : EqDecision DeviceMesh.
Proof. solve_decision. Defined.
#[global] Instance ShardingSpec_eq_dec : EqDecision ShardingSpec.
Proof. solve_decision. Defined.
#[global] Instance TrainCycleItem_eq_dec : EqDecision TrainCycleItem.
Proof. solve_decision. Defined.

(** ** Insertion-ordered dictionaries *)

Section PyDict.
Context {K V : Type} `{EqDecision K}.

(** [d[k]], [None] standing for the [KeyError]. *)
Fixpoint dict_get (k : K) (d : list (K * V)) : option V :=
  match d with
  | [] => None
  | (k', v) :: d' => if decide (k' = k) then Some v else dict_get k d'
  end.

(** [d[k] = v]: the value of an existing key is replaced where it stands, a
    new key goes to the end. *)
Fixpoint dict_set (k : K) (v : V) (d : list (K * V)) : list (K * V) :=
  match d with
  | [] => [(k, v)]
  | (k', v') :: d' =>
      if decide (k' = k) then (k', v) :: d' else (k', v') :: dict_set k v d'
  end.

(** [k in d]. *)
Definition dict_contains (k : K) (d : list (K * V)) : bool :=
  bool_decide (is_Some (dict_get k d)).
End PyDict.

Definition Costs := list (DictKey * list TrainCycleItem).

(** Modelled from the spec: the class [ShardingStrategy] is imported by the
    source and not defined in it.  The spec gives it the fields
    [sharding_specs] (operation data to layout, here in the order of
    [items()]), [compute_cost], [communication_cost] and [resharding_costs]
    (node to sequence of cost items); the last field is [None] until it is
    assigned. *)
Record ShardingStrategy := mkShardingStrategy {
  sharding_specs : list (OperationData * ShardingSpec);
  compute_cost : option TrainCycleItem;
  communication_cost : option TrainCycleItem;
  resharding_costs : option Costs
}.

#[global] Instance ShardingStrategy_eq_dec : EqDecision ShardingStrategy.
Proof. unfold Costs. solve_decision. Defined.

(** [strategy.resharding_costs = resharding_costs], for a strategy that is in
    no vector of the store: the strategy with the field assigned. *)
Definition set_resharding_costs (strategy : ShardingStrategy) (rc : Costs)
  : ShardingStrategy :=
  {| sharding_specs := sharding_specs strategy;
     compute_cost := compute_cost strategy;
     communication_cost := communication_cost strategy;
     resharding_costs := Some rc |}.

(** ** Exceptions *)

Inductive PyError :=
| AssertionError (msg : string)
| KeyError (msg : string)
| AttributeError (msg : string)
| InvalidLayoutError (msg : string).

Inductive Exc (A : Type) :=
| Ok (a : A)
| Raise (e : PyError).
Arguments Ok {A} a.
Arguments Raise {A} e.

Definition exc_bind {A B} (m : Exc A) (f : A -> Exc B) : Exc B :=
  match m with
  | Ok a => f a
  | Raise e => Raise e
  end.

(** A list comprehension whose body may raise. *)
Fixpoint exc_map {A B} (f : A -> Exc B) (l : list A) : Exc (list B) :=
  match l with
  | [] => Ok []
  | a :: l' =>
      exc_bind (f a) (fun b => exc_bind (exc_map f l') (fun bs => Ok (b :: bs)))
  end.

(** Modelled from the spec: [ShardingStrategy.get_op_data_by_name] is called by
    the source and not defined in it.  The name of an operation data is the
    identifier by which operands are correlated: the first operand of the
    strategy that carries the name. *)
Fixpoint get_op_data_by_name_in (specs : list (OperationData * ShardingSpec))
    (n : string) : Exc OperationData :=
  match specs with
  | [] => Raise (KeyError ("Could not find the OperationData with name " +:+ n))
  | (op_data, _) :: specs' =>
      if decide (name op_data = n) then Ok op_data
      else get_op_data_by_name_in specs' n
  end.

Definition get_op_data_by_name (strategy : ShardingStrategy) (n : string)
  : Exc OperationData :=
  get_op_data_by_name_in (sharding_specs strategy) n.

(** Modelled from the spec: [ShardingStrategy.get_sharding_spec_by_name] is
    called by the source and not defined in it: the layout of the first
    operand of the strategy that carries the name. *)
Fixpoint get_sharding_spec_by_name_in (specs : list (OperationData * ShardingSpec))
    (n : string) : Exc ShardingSpec :=
  match specs with
  | [] => Raise (KeyError ("Could not find the ShardingSpec for OperationData with name " +:+ n))
  | (op_data, sharding_spec) :: specs' =>
      if decide (name op_data = n) then Ok sharding_spec
      else get_sharding_spec_by_name_in specs' n
  end.

Definition get_sharding_spec_by_name (strategy : ShardingStrategy) (n : string)
  : Exc ShardingSpec :=
  get_sharding_spec_by_name_in (sharding_specs strategy) n.

(** [strategy.sharding_specs[op_data]]. *)
Definition sharding_specs_getitem (strategy : ShardingStrategy)
    (op_data : OperationData) : Exc ShardingSpec :=
  match dict_get op_data (sharding_specs strategy) with
  | Some sharding_spec => Ok sharding_spec
  | None => Raise (KeyError (name op_data))
  end.

(** ** The store and the monad of the handler's methods *)

(** Calls that leave the handler. *)
Inductive Event :=
| Call_update_resharding_cost (strategy : ShardingStrategy)
| Call_shape_consistency (source_spec target_spec : ShardingSpec)
| Call_check_sharding_spec_validity (sharding_spec : ShardingSpec) (tensor : Tensor).

Record State := mkState {
  (** the contents of every list object that is a strategies vector *)
  vectors : VecRef -> list ShardingStrategy;
  (** [getattr(node, 'strategies_vector')], [None] when [hasattr] is false *)
  node_strategies_vector : NodeRef -> option VecRef;
  (** the calls made so far, oldest first *)
  calls : list Event
}.

Definition M (A : Type) := State -> Exc A * State.

Definition ret {A} (a : A) : M A := fun st => (Ok a, st).
Definition raise {A} (e : PyError) : M A := fun st => (Raise e, st).
Definition bind {A B} (m : M A) (f : A -> M B) : M B :=
  fun st =>
    match m st with
    | (Ok a, st') => f a st'
    | (Raise e, st') => (Raise e, st')
    end.
Definition lift {A} (m : Exc A) : M A := fun st => (m, st).
Definition get_state : M State := fun st => (Ok st, st).
Definition record_call (ev : Event) : M unit :=
  fun st =>
    (Ok tt, {| vectors := vectors st;
               node_strategies_vector := node_strategies_vector st;
               calls := calls st ++ [ev] |}).

(** [vec.extend(new)] on the list object [vec]. *)
Definition extend (vec : VecRef) (new : list ShardingStrategy) : M unit :=
  fun st =>
    (Ok tt, {| vectors := fun r => if decide (r = vec) then vectors st r ++ new
                                   else vectors st r;
               node_strategies_vector := node_strategies_vector st;
               calls := calls st |}).

Declare Scope py_scope.
Delimit Scope py_scope with py.
Notation "x <- m ;; k" := (bind m (fun x => k))
  (at level 20, m at level 99, k at level 200, only parsing) : py_scope.
Notation "m ;; k" := (bind m (fun _ => k))
  (at level 100, k at level 200, only parsing, right associativity) : py_scope.
Local Open Scope py_scope.

(** [for a in l: acc = f(acc, a)]. *)
Fixpoint for_fold {A B} (f : B -> A -> M B) (l : list A) (acc : B) : M B :=
  match l with
  | [] => ret acc
  | a :: l' => acc' <- f acc a ;; for_fold f l' acc'
  end.

(** [for a in l: f(a)]. *)
Fixpoint for_each {A} (f : A -> M unit) (l : list A) : M unit :=
  match l with
  | [] => ret tt
  | a :: l' => f a ;; for_each f l'
  end.

(** [list(map(f, l))]. *)
Fixpoint map_list {A B} (f : A -> M B) (l : list A) : M (list B) :=
  match l with
  | [] => ret []
  | a :: l' => b <- f a ;; bs <- map_list f l' ;; ret (b :: bs)
  end.

(** ** The graph *)

(** A tensor as an object: its identity, by which [torch] tells a parameter
    registered twice from two parameters, and its meta data. *)
Record TensorObject := mkTensorObject {
  object_id : nat;
  object_meta : Tensor
}.

(** A [torch.nn.Module], as far as [get_submodule], [named_parameters] and
    [named_buffers] look at it: the name of its class, the names that ordinary
    attribute lookup finds on it (methods such as [forward], flags such as
    [training]; none of them holds a module), and the three dictionaries that
    [Module.__getattr__] searches, in which a name may be registered with
    [None]. *)
#[warnings="-register-all"] Inductive Module := mkModule {
  _get_name : string;
  plain_attributes : list string;
  _parameters : list (string * option TensorObject);
  _buffers : list (string * option TensorObject);
  _modules : list (string * option Module)
}.

Record Node := mkNode {
  node_name : string;
  target : string;
  _input_nodes : list NodeRef;
  users : list NodeRef
}.

Record Graph := mkGraph {
  nodes : NodeRef -> Node;
  owning_module : option Module
}.

(** ** Strategy generators and handlers *)

Record StrategyGenerator := mkStrategyGenerator {
  generate : list ShardingStrategy
}.

(** What [post_process] returns: one strategy, or a list or tuple of them. *)
Inductive PostProcessed :=
| One (strategy : ShardingStrategy)
| Many (strategies : list ShardingStrategy).

Record NodeHandler := mkNodeHandler {
  node : NodeRef;
  predecessor_node : list NodeRef;
  successor_node : list NodeRef;
  device_mesh : DeviceMesh;
  strategies_vector : VecRef
}.

(** The methods a subclass of [NodeHandler] provides: the two abstract ones and
    the hook [post_process]. *)
Class NodeHandlerClass := mkNodeHandlerClass {
  get_strategy_generator : NodeHandler -> list StrategyGenerator;
  get_operation_data_mapping : NodeHandler -> list (string * OperationData);
  post_process : NodeHandler -> ShardingStrategy -> PostProcessed
}.

(** [NodeHandler.post_process], the default of the hook. *)
Definition NodeHandler_post_process (self : NodeHandler)
    (strategy : ShardingStrategy) : PostProcessed :=
  One strategy.

Section Planner.
(** The graph under planning; the code never changes its nodes or edges. *)
Variable G : Graph.
(** [ShapeConsistencyManager().shape_consistency], as far as the source
    uses it: the cost dictionary for a source and a target layout. *)
Variable shape_consistency : ShardingSpec -> ShardingSpec -> ReshardingCost.
(** [check_sharding_spec_validity]: returns, or raises. *)
Variable check_sharding_spec_validity : ShardingSpec -> Tensor -> Exc unit.
Context {cls : NodeHandlerClass}.

(** [str(node)]. *)
Definition str (n : NodeRef) : string := node_name (nodes G n).

Definition NodeHandler__init__ (node : NodeRef) (device_mesh : DeviceMesh)
    (strategies_vector : VecRef) : NodeHandler :=
  {| node := node;
     predecessor_node := _input_nodes (nodes G node);
     successor_node := users (nodes G node);
     device_mesh := device_mesh;
     strategies_vector := strategies_vector |}.

Definition call_shape_consistency (prev_sharding_spec current_sharding_spec : ShardingSpec)
  : M ReshardingCost :=
  record_call (Call_shape_consistency prev_sharding_spec current_sharding_spec) ;;
  ret (shape_consistency prev_sharding_spec current_sharding_spec).

(** Lines 73-79: the body of the inner loop. *)
Definition append_resharding_cost (n : NodeRef) (current_sharding_spec : ShardingSpec)
    (resharding_costs : Costs) (prev_sharding_spec : ShardingSpec) : M Costs :=
  resharding_cost <- call_shape_consistency prev_sharding_spec current_sharding_spec ;;
  let resharding_cost :=
    {| fwd := cost_forward resharding_cost;
       bwd := cost_backward resharding_cost;
       total := cost_total resharding_cost |} in
  match dict_get (KNode n) resharding_costs with
  | Some l => ret (dict_set (KNode n) (l ++ [resharding_cost]) resharding_costs)
  | None => raise (KeyError (str n))
  end.

(** Lines 51-64: the layouts of the predecessor's candidates and the layout
    this strategy asks for, both for the operand named after the
    predecessor. *)
Definition predecessor_sharding_specs (strategy : ShardingStrategy) (n : NodeRef)
  : M (list ShardingSpec * OperationData * ShardingSpec) :=
  let node_name := str n in
  st <- get_state ;;
  match node_strategies_vector st n with
  | None =>
      raise (AssertionError ("The predecessor node " +:+ node_name +:+
               " has no strategy vector to compute the resharding cost."))
  | Some prev_strategy_vector =>
      prev_sharding_specs <-
        lift (exc_map (fun prev_strategy => get_sharding_spec_by_name prev_strategy node_name)
                      (vectors st prev_strategy_vector)) ;;
      op_data <- lift (get_op_data_by_name strategy node_name) ;;
      current_sharding_spec <- lift (sharding_specs_getitem strategy op_data) ;;
      ret (prev_sharding_specs, op_data, current_sharding_spec)
  end.

(** Lines 51-79: the body of the loop over the predecessors. *)
Definition predecessor_resharding_costs (strategy : ShardingStrategy)
    (resharding_costs : Costs) (n : NodeRef) : M Costs :=
  specs <- predecessor_sharding_specs strategy n ;;
  let '(prev_sharding_specs, op_data, current_sharding_spec) := specs in
  let resharding_costs :=
    if negb (dict_contains (KOperationData op_data) resharding_costs)
    then dict_set (KNode n) [] resharding_costs
    else resharding_costs in
  for_fold (append_resharding_cost n current_sharding_spec)
           prev_sharding_specs resharding_costs.

(** Lines 42-81. *)
Definition update_resharding_cost (self : NodeHandler) (strategy : ShardingStrategy)
  : M ShardingStrategy :=
  record_call (Call_update_resharding_cost strategy) ;;
  resharding_costs <-
    for_fold (predecessor_resharding_costs strategy) (predecessor_node self) [] ;;
  ret (set_resharding_costs strategy resharding_costs).

(** Lines 96-100: a list or tuple is spliced in, anything else is appended. *)
Definition flatten_post_processed (post_processed : list PostProcessed)
  : list ShardingStrategy :=
  flat_map (fun strategy =>
              match strategy with
              | Many strategies => strategies
              | One strategy => [strategy]
              end) post_processed.

(** Lines 112-114: the check is called only when [op_data.data] is not [None]
    and is a tensor. *)
Definition check_operand (entry : OperationData * ShardingSpec) : M unit :=
  let '(op_data, sharding_spec) := entry in
  match data op_data with
  | PyTensor tensor =>
      record_call (Call_check_sharding_spec_validity sharding_spec tensor) ;;
      lift (check_sharding_spec_validity sharding_spec tensor)
  | PyNone | PyObject _ => ret tt
  end.

(** Lines 88-108: the body of the loop over the generators. *)
Definition register_generator (self : NodeHandler) (compute_resharding_cost : bool)
    (generator : StrategyGenerator) : M unit :=
  let strategies := generate generator in
  let post_processed_strategies :=
    flatten_post_processed (map (post_process self) strategies) in
  post_processed_strategies <-
    (if compute_resharding_cost
     then map_list (update_resharding_cost self) post_processed_strategies
     else ret post_processed_strategies) ;;
  extend (strategies_vector self) post_processed_strategies.

(** Lines 83-116.  The parameter [compute_resharding_cost] has the default
    [True] in the source. *)
Definition register_strategy (self : NodeHandler) (compute_resharding_cost : bool)
  : M VecRef :=
  let strategy_generators := get_strategy_generator self in
  for_each (register_generator self compute_resharding_cost) strategy_generators ;;
  st <- get_state ;;
  for_each (fun strategy => for_each check_operand (sharding_specs strategy))
           (vectors st (strategies_vector self)) ;;
  ret (strategies_vector self).

End Planner.

(** ** [ModuleHandler] *)

(** [target.split(".")]. *)
Fixpoint split_dot (s : string) : list string :=
  match s with
  | EmptyString => [EmptyString]
  | String c s' =>
      if Ascii.eqb c "."%char then EmptyString :: split_dot s'
      else match split_dot s' with
           | [] => [String c EmptyString]
           | atom :: atoms => String c atom :: atoms
           end
  end.

(** The loop of [torch.nn.Module.get_submodule].  [hasattr(mod, item)] holds
    for a plain attribute and for a name registered as a parameter, a buffer
    or a submodule, [getattr] searching them in this order; whatever is found
    must be a module. *)
Fixpoint walk_submodules (submod : Module) (atoms : list string) : Exc Module :=
  match atoms with
  | [] => Ok submod
  | item :: atoms' =>
      if decide (item ∈ plain_attributes submod)
      then Raise (AttributeError ("`" +:+ item +:+ "` is not an nn.Module"))
      else
        match dict_get item (_parameters submod), dict_get item (_buffers submod),
              dict_get item (_modules submod) with
        | Some _, _, _ | None, Some _, _ | None, None, Some None =>
            Raise (AttributeError ("`" +:+ item +:+ "` is not an nn.Module"))
        | None, None, Some (Some child) => walk_submodules child atoms'
        | None, None, None =>
            Raise (AttributeError (_get_name submod +:+ " has no attribute `" +:+ item +:+ "`"))
        end
  end.

Definition get_submodule (self : Module) (target : string) : Exc Module :=
  if decide (target = "") then Ok self
  else walk_submodules self (split_dot target).

(** [Module._named_members] for one module and an empty prefix: an entry that
    is [None], or whose object was already yielded under an earlier name, is
    skipped; [memo] holds the identities of the objects yielded so far. *)
Fixpoint _named_members (memo : list nat)
    (members : list (string * option TensorObject)) : list (string * TensorObject) :=
  match members with
  | [] => []
  | (k, None) :: members' => _named_members memo members'
  | (k, Some v) :: members' =>
      if decide (object_id v ∈ memo) then _named_members memo members'
      else (k, v) :: _named_members (object_id v :: memo) members'
  end.

(** [module.named_parameters(recurse=False)] and
    [module.named_buffers(recurse=False)]. *)
Definition named_parameters_of (submod : Module) : list (string * TensorObject) :=
  _named_members [] (_parameters submod).
Definition named_buffers_of (submod : Module) : list (string * TensorObject) :=
  _named_members [] (_buffers submod).

(** [{k: v for k, v in pairs}]: a later pair overwrites an earlier one. *)
Definition dict_of_pairs (pairs : list (string * TensorObject))
  : gmap string TensorObject :=
  foldl (fun d kv => <[kv.1 := kv.2]> d) ∅ pairs.

Record ModuleHandler := mkModuleHandler {
  handler : NodeHandler;
  module : Module;
  named_parameters : gmap string TensorObject;
  named_buffers : gmap string TensorObject
}.

Definition ModuleHandler__init__ (G : Graph) (node : NodeRef)
    (device_mesh : DeviceMesh) (strategies_vector : VecRef) : Exc ModuleHandler :=
  let self := NodeHandler__init__ G node device_mesh strategies_vector in
  match owning_module G with
  | None =>
      Raise (AssertionError "The graph is not associated with a module, please make sure it can be used to instantiate a GraphModule object.")
  | Some root =>
      exc_bind (get_submodule root (target (nodes G node))) (fun module =>
        let named_parameters := named_parameters_of module in
        let named_buffers := named_buffers_of module in
        let named_parameters := dict_of_pairs named_parameters in
        let named_buffers := dict_of_pairs named_buffers in
        Ok {| handler := self;
              module := module;
              named_parameters := named_parameters;
              named_buffers := named_buffers |})
  end.

(** ** The validation rule *)

(** Modelled from the spec: [check_sharding_spec_validity] is imported by the
    source and not defined in it.  A layout is valid for a tensor only if
    (a) every dimension it refers to exists in the tensor, (b) the size of the
    tensor along a sharded dimension is evenly divisible by the product of the
    sizes of the mesh axes assigned to it, and (c) no mesh axis is assigned to
    more than one dimension.  A violation raises [InvalidLayoutError]. *)
Definition axes_product (mesh : DeviceMesh) (axes : list nat) : option Z :=
  foldr (fun axis acc =>
           match mesh_shape mesh !! axis, acc with
           | Some size, Some p => Some (size * p)
           | _, _ => None
           end) (Some 1) axes.

Definition dim_valid (mesh : DeviceMesh) (tensor : Tensor)
    (entry : nat * list nat) : bool :=
  match shape tensor !! entry.1, axes_product mesh entry.2 with
  | Some size, Some p => bool_decide (0 < p ∧ size `mod` p = 0)
  | _, _ => false
  end.

Definition layout_valid (sharding_spec : ShardingSpec) (tensor : Tensor) : bool :=
  forallb (dim_valid (layout_mesh sharding_spec) tensor) (dim_partition sharding_spec)
  && bool_decide (NoDup (concat (map snd (dim_partition sharding_spec)))).

Definition layout_rule (sharding_spec : ShardingSpec) (tensor : Tensor) : Exc unit :=
  if layout_valid sharding_spec tensor then Ok tt
  else Raise (InvalidLayoutError "the layout cannot be realised for the shape of the tensor").

(** ** Vocabulary of the statements *)

(** The store after further calls were recorded. *)
Definition add_calls (st : State) (new : list Event) : State :=
  {| vectors := vectors st;
     node_strategies_vector := node_strategies_vector st;
     calls := calls st ++ new |}.

(** The item built at lines 76-78 from a cost dictionary. *)
Definition to_item (c : ReshardingCost) : TrainCycleItem :=
  {| fwd := cost_forward c; bwd := cost_backward c; total := cost_total c |}.

(** Every key of the dictionary is a node. *)
Definition nodes_only (rc : Costs) : Prop :=
  ∀ k, k ∈ map fst rc → ∃ n, k = KNode n.

(** The error of the first predecessor, in order, whose layouts cannot be
    read in the store [st]. *)
Fixpoint first_error (G : Graph) (strategy : ShardingStrategy) (st : State)
    (l : list NodeRef) : option PyError :=
  match l with
  | [] => None
  | n :: l' =>
      match fst (predecessor_sharding_specs G strategy n st) with
      | Raise e => Some e
      | Ok _ => first_error G strategy st l'
      end
  end.

Definition is_oracle_call (ev : Event) : Prop :=
  match ev with Call_shape_consistency _ _ => True | _ => False end.

Definition is_check_call (ev : Event) : Prop :=
  match ev with Call_check_sharding_spec_validity _ _ => True | _ => False end.

(** The message of the assertion of line 55 for the predecessor [n]. *)
Definition no_strategy_vector (G : Graph) (n : NodeRef) : PyError :=
  AssertionError ("The predecessor node " +:+ str G n +:+
                  " has no strategy vector to compute the resharding cost.").

(** What the loop over the predecessors of [update_resharding_cost], started
    in the store [st] with the dictionary [rc], leaves behind: the dictionary
    or the error [res], and the calls [new] it recorded. *)
Definition loop_post (G : Graph)
    (shape_consistency : ShardingSpec → ShardingSpec → ReshardingCost)
    (strategy : ShardingStrategy) (st : State) (l : list NodeRef)
    (rc : Costs) (res : Exc Costs) (new : list Event) : Prop :=
  match res with
  | Ok rc' =>
      first_error G strategy st l = None
      ∧ nodes_only rc'
      ∧ (∀ P, P ∈ l → ∃ prevs op cur,
            fst (predecessor_sharding_specs G strategy P st) = Ok (prevs, op, cur)
            ∧ dict_get (KNode P) rc'
              = Some (map (λ prev, to_item (shape_consistency prev cur)) prevs))
      ∧ (∀ k, (∀ P, P ∈ l → k ≠ KNode P) → dict_get k rc' = dict_get k rc)
      ∧ (∀ k costs, (k, costs) ∈ rc' → (k, costs) ∈ rc
            ∨ Forall (λ it, ∃ prev cur, Call_shape_consistency prev cur ∈ new
                              ∧ it = to_item (shape_consistency prev cur)) costs)
  | Raise e => first_error G strategy st l = Some e
  end.

(** The store [st'] differs from [st] by the strategies [added] at the end of
    the vector [v] and by the recorded calls [new]. *)
Definition step (v : VecRef) (added : list ShardingStrategy) (new : list Event)
    (st st' : State) : Prop :=
  (∀ r, vectors st' r = if decide (r = v) then vectors st r ++ added else vectors st r)
  ∧ node_strategies_vector st' = node_strategies_vector st
  ∧ calls st' = calls st ++ new.

(** The candidates of one generator after [post_process], flattened, and those
    of a sequence of generators. *)
Definition candidates `{NodeHandlerClass} (self : NodeHandler)
    (generator : StrategyGenerator) : list ShardingStrategy :=
  flatten_post_processed (map (post_process self) (generate generator)).

Definition all_candidates `{NodeHandlerClass} (self : NodeHandler)
    (generators : list StrategyGenerator) : list ShardingStrategy :=
  concat (map (candidates self) generators).

(** [added] holds, position by position, what [update_resharding_cost]
    returned for the candidates [cands]; the store [st1] in which the strategy
    at position [i] was computed differs from [st] by recorded calls and by at
    most [i] entries appended to the vector of the handler. *)
Definition computed (G : Graph)
    (shape_consistency : ShardingSpec → ShardingSpec → ReshardingCost)
    (self : NodeHandler) (st : State)
    (cands added : list ShardingStrategy) : Prop :=
  length added = length cands
  ∧ ∀ i s', added !! i = Some s' →
      ∃ c earlier new st1 st2,
        cands !! i = Some c
        ∧ step (strategies_vector self) earlier new st st1
        ∧ (length earlier ≤ i)%nat
        ∧ update_resharding_cost G shape_consistency self c st1 = (Ok s', st2).

(** How the candidates [cands] reach the vector, by the flag. *)
Definition committed (G : Graph)
    (shape_consistency : ShardingSpec → ShardingSpec → ReshardingCost)
    (self : NodeHandler) (compute_resharding_cost : bool) (st : State)
    (cands added : list ShardingStrategy) : Prop :=
  if compute_resharding_cost
  then computed G shape_consistency self st cands added
  else added = cands.

(** Every layout of the strategy that belongs to an operand holding a tensor
    passes the check. *)
Definition strategy_checks (check : ShardingSpec → Tensor → Exc unit)
    (strategy : ShardingStrategy) : Prop :=
  ∀ op spec t, (op, spec) ∈ sharding_specs strategy → data op = PyTensor t →
    check spec t = Ok tt.

(** The layout [spec] is checked against [t] because of an operand of a
    strategy of [vec] that holds the tensor [t]. *)
Definition tensor_operand_of (vec : list ShardingStrategy)
    (spec : ShardingSpec) (t : Tensor) : Prop :=
  ∃ strategy op, strategy ∈ vec ∧ (op, spec) ∈ sharding_specs strategy
                 ∧ data op = PyTensor t.

(** A committed strategy is the candidate itself, or, when the costs are
    computed, the candidate with its [resharding_costs] assigned. *)
Definition committed_as (compute_resharding_cost : bool)
    (c s' : ShardingStrategy) : Prop :=
  if compute_resharding_cost then ∃ rc, s' = set_resharding_costs c rc else s' = c.

(** The strategies that one result of [post_process] stands for: the
    strategy itself, or those of the list or tuple, in its order. *)
Definition fan_out (post_processed : PostProcessed) : list ShardingStrategy :=
  match post_processed with
  | One strategy => [strategy]
  | Many strategies => strategies
  end.

(** The order in which the specification has the candidates committed: raw
    candidate after raw candidate, each replaced where it stands by what
    [post_process] makes of it; and generator after generator. *)
Fixpoint pipeline_of_raw `{NodeHandlerClass} (self : NodeHandler)
    (raw : list ShardingStrategy) : list ShardingStrategy :=
  match raw with
  | [] => []
  | strategy :: raw' => fan_out (post_process self strategy) ++ pipeline_of_raw self raw'
  end.

Fixpoint pipeline_order `{NodeHandlerClass} (self : NodeHandler)
    (generators : list StrategyGenerator) : list ShardingStrategy :=
  match generators with
  | [] => []
  | generator :: generators' =>
      pipeline_of_raw self (generate generator) ++ pipeline_order self generators'
  end.

(** The strategies for which the log records an entry into
    [update_resharding_cost], oldest first. *)
Definition updated_strategies (log : list Event) : list ShardingStrategy :=
  omap (λ ev, match ev with
              | Call_update_resharding_cost strategy => Some strategy
              | _ => None
              end) log.

(** [current] is the layout the strategy asks for the operand named after the
    node [P]. *)
Definition layout_asked (G : Graph) (strategy : ShardingStrategy) (P : NodeRef)
    (current : ShardingSpec) : Prop :=
  ∃ op_data, get_op_data_by_name strategy (str G P) = Ok op_data
             ∧ sharding_specs_getitem strategy op_data = Ok current.

(** [cost] holds the three values the oracle gives for the transition from
    the layout that the candidate [prev_strategy] of the node [P] has for the
    operand named after [P], to the layout [current]. *)
Definition transition_cost (G : Graph)
    (shape_consistency : ShardingSpec → ShardingSpec → ReshardingCost)
    (P : NodeRef) (current : ShardingSpec)
    (prev_strategy : ShardingStrategy) (cost : TrainCycleItem) : Prop :=
  ∃ prev_layout,
    get_sharding_spec_by_name prev_strategy (str G P) = Ok prev_layout
    ∧ fwd cost = cost_forward (shape_consistency prev_layout current)
    ∧ bwd cost = cost_backward (shape_consistency prev_layout current)
    ∧ total cost = cost_total (shape_consistency prev_layout current).

(** The strategies [added] are the candidates [cands], position by position,
    each with its [resharding_costs] assigned and nothing else changed; the
    costs assigned hold, for every predecessor of the node, one cost per
    candidate of the predecessor, in the order of its vector as it stood
    before the call.  (Should a predecessor share the vector of the handler,
    that vector had grown by the entries [earlier], no more than precede the
    position of the strategy.) *)
Definition costs_assigned (G : Graph)
    (shape_consistency : ShardingSpec → ShardingSpec → ReshardingCost)
    (self : NodeHandler) (st : State)
    (cands added : list ShardingStrategy) : Prop :=
  length added = length cands
  ∧ ∀ i c s', cands !! i = Some c → added !! i = Some s' →
      sharding_specs s' = sharding_specs c
      ∧ compute_cost s' = compute_cost c
      ∧ communication_cost s' = communication_cost c
      ∧ ∃ rc, resharding_costs s' = Some rc
          ∧ ∀ P, P ∈ predecessor_node self →
              ∃ vec current costs earlier,
                node_strategies_vector st P = Some vec
                ∧ layout_asked G c P current
                ∧ dict_get (KNode P) rc = Some costs
                ∧ (vec ≠ strategies_vector self → earlier = [])
                ∧ (length earlier ≤ i)%nat
                ∧ Forall2 (transition_cost G shape_consistency P current)
                          (vectors st vec ++ earlier) costs.

(** [item] is the attribute name of the direct submodule [child] of [m]:
    registered as a submodule, and not the name of a plain attribute, of a
    parameter or of a buffer. *)
Definition child_module (m : Module) (item : string) (child : Module) : Prop :=
  (item ∉ plain_attributes m)
  ∧ dict_get item (_parameters m) = None
  ∧ dict_get item (_buffers m) = None
  ∧ dict_get item (_modules m) = Some (Some child).

(** The chain of attribute names [atoms] leads from the module [m] to the
    submodule [m'], child after child. *)
Inductive submodule_at : Module → list string → Module → Prop :=
| submodule_here m : submodule_at m [] m
| submodule_child m item child atoms m' :
    child_module m item child →
    submodule_at child atoms m' →
    submodule_at m (item :: atoms) m'.

(** The string has no dot. *)
Fixpoint dot_free (s : string) : Prop :=
  match s with
  | EmptyString => True
  | String c s' => c ≠ "."%char ∧ dot_free s'
  end.

(** The target of a node resolves to the module [m] in the container [root]:
    the empty target is the container itself, and any other target is a chain
    of attribute names joined by dots that leads from [root] to [m]. *)
Definition resolves_to (root : Module) (target : string) (m : Module) : Prop :=
  (target = "" ∧ m = root)
  ∨ (target ≠ ""
     ∧ ∃ atoms, target = String.concat "." atoms
                ∧ Forall dot_free atoms
                ∧ submodule_at root atoms m).

(** The entry of [members] that [named_parameters] yields under the name
    [k]: the object [p], registered under [k], and under no earlier name. *)
Definition first_registration (members : list (string * option TensorObject))
    (k : string) (p : TensorObject) : Prop :=
  ∃ i, members !! i = Some (k, Some p)
       ∧ ∀ j k' p', (j < i)%nat → members !! j = Some (k', Some p') →
           object_id p' ≠ object_id p.

(** ** A planning scenario

    A mesh of two by two devices; a chain [a -> b]; a node [c] whose two
    predecessors [p0] and [p1] have not been processed; an owning module with
    a linear layer and a block holding a convolution. *)

Module Scenario.

Definition mesh := mkDeviceMesh [2; 2].
Definition replicated := mkShardingSpec mesh [].
Definition shard_dim0 := mkShardingSpec mesh [(0%nat, [0%nat])].
Definition shard_dim1 := mkShardingSpec mesh [(1%nat, [1%nat])].
(** A layout no tensor of rank two can have. *)
Definition bad_layout := mkShardingSpec mesh [(7%nat, [9%nat; 9%nat])].

Definition tensor_8x8 := mkTensor [8; 8].
Definition tensor_3x8 := mkTensor [3; 8].

Definition linear_weight := mkTensorObject 1 (mkTensor [8; 8]).
Definition linear_bias := mkTensorObject 2 (mkTensor [8]).
Definition conv_weight := mkTensorObject 3 (mkTensor [4; 4; 3; 3]).
Definition running_mean := mkTensorObject 4 (mkTensor [4]).

Definition linear :=
  mkModule "Linear" ["forward"; "training"]
           [("weight", Some linear_weight); ("bias", Some linear_bias)] [] [].
(** A convolution built with [bias=False]: the name is registered with [None]. *)
Definition conv :=
  mkModule "Conv2d" ["forward"; "training"]
           [("weight", Some conv_weight); ("bias", None)]
           [("running_mean", Some running_mean)] [].
Definition block :=
  mkModule "Sequential" ["forward"; "training"] [] [] [("conv", Some conv)].
Definition root :=
  mkModule "GraphModule" ["forward"; "training"] [] []
           [("linear", Some linear); ("block", Some block)].

Definition a : NodeRef := 0%nat.
Definition b : NodeRef := 1%nat.
Definition c : NodeRef := 2%nat.
Definition p0 : NodeRef := 3%nat.
Definition p1 : NodeRef := 4%nat.
Definition d : NodeRef := 5%nat.

Definition node_table (n : NodeRef) : Node :=
  match n with
  | 0%nat => mkNode "a" "" [] [b]
  | 1%nat => mkNode "b" "linear" [a] []
  | 2%nat => mkNode "c" "block.conv" [p0; p1] []
  | 3%nat => mkNode "p0" "" [] [c]
  | 4%nat => mkNode "p1" "" [] [c]
  | _ => mkNode "d" "linear.weight" [] []
  end.

Definition graph := mkGraph node_table (Some root).
Definition graph_without_module := mkGraph node_table None.

(** An oracle for which the identity transition is free, and whose total is
    not the sum of the two other costs. *)
Definition oracle (source_spec target_spec : ShardingSpec) : ReshardingCost :=
  if decide (source_spec = target_spec) then mkReshardingCost 0 0 0
  else mkReshardingCost 3 4 100.


Definition strategy_a (spec : ShardingSpec) : ShardingStrategy :=
  mkShardingStrategy [(mkOperationData "a" OUTPUT (PyTensor tensor_8x8), spec)]
                     None None None.

Definition strategy_b (spec : ShardingSpec) : ShardingStrategy :=
  mkShardingStrategy [(mkOperationData "a" ARG (PyTensor tensor_8x8), spec);
                      (mkOperationData "b" OUTPUT (PyTensor tensor_8x8), spec)]
                     None None None.

Definition strategy_3x8 (spec : ShardingSpec) : ShardingStrategy :=
  mkShardingStrategy [(mkOperationData "x" ARG (PyTensor tensor_3x8), spec)]
                     None None None.

Definition strategy_without_tensor : ShardingStrategy :=
  mkShardingStrategy [(mkOperationData "k" ARG PyNone, bad_layout);
                      (mkOperationData "n" ARG (PyObject "3"), bad_layout)]
                     None None None.

(** The vector of [a] is the list object 10, with two candidates; no other
    node has been processed. *)
Definition vector_a : VecRef := 10%nat.
Definition vector_b : VecRef := 11%nat.
Definition vector_c : VecRef := 12%nat.
Definition vector_x : VecRef := 13%nat.

Definition store : State :=
  {| vectors := λ r, match r with
                     | 10%nat => [strategy_a shard_dim0; strategy_a shard_dim1]
                     | _ => []
                     end;
     node_strategies_vector := λ n, match n with 0%nat => Some vector_a | _ => None end;
     calls := [] |}.

Definition handler_b := NodeHandler__init__ graph b mesh vector_b.
Definition handler_c := NodeHandler__init__ graph c mesh vector_c.
Definition handler_x := NodeHandler__init__ graph a mesh vector_x.

(** The handler class of [b]: two generators, and a [post_process] that
    fans a replicated strategy out into two. *)
Definition class_b : NodeHandlerClass :=
  {| get_strategy_generator := λ _,
       [mkStrategyGenerator [strategy_b shard_dim0];
        mkStrategyGenerator [strategy_b replicated; strategy_b shard_dim1]];
     get_operation_data_mapping := λ _, [];
     post_process := λ _ strategy,
       if decide (strategy = strategy_b replicated)
       then Many [strategy; strategy_b shard_dim0]
       else One strategy |}.

(** A handler class whose generator proposes, for a tensor of shape (3, 8),
    to shard dimension 0, then dimension 1. *)
Definition class_3x8 : NodeHandlerClass :=
  {| get_strategy_generator := λ _,
       [mkStrategyGenerator [strategy_3x8 shard_dim0; strategy_3x8 shard_dim1]];
     get_operation_data_mapping := λ _, [];
     post_process := NodeHandler_post_process |}.

(** A handler class whose only candidate has no operand holding a tensor. *)
Definition class_without_tensor : NodeHandlerClass :=
  {| get_strategy_generator := λ _, [mkStrategyGenerator [strategy_without_tensor]];
     get_operation_data_mapping := λ _, [];
     post_process := NodeHandler_post_process |}.

(** A handler class without generators: a node that contributes no
    strategy. *)
Definition class_idle : NodeHandlerClass :=
  {| get_strategy_generator := λ _, [];
     get_operation_data_mapping := λ _, [];
     post_process := NodeHandler_post_process |}.

(** What [update_resharding_cost] makes of [strategy_b replicated]. *)
Definition updated_b : ShardingStrategy :=
  set_resharding_costs (strategy_b replicated)
    [(KNode a, [mkTrainCycleItem 3 4 100; mkTrainCycleItem 3 4 100])].

Definition calls_b : list Event :=
  [Call_update_resharding_cost (strategy_b replicated);
   Call_shape_consistency shard_dim0 replicated;
   Call_shape_consistency shard_dim1 replicated].

End Scenario.

(** ** Vocabulary of the further properties *)

(** The calls of the oracle that [update_resharding_cost] makes for the
    predecessor [P]: one per layout of the candidates of [P], in their order,
    each towards the layout the strategy asks for; none when the layouts
    cannot be read. *)
Definition oracle_calls_for (G : Graph) (strategy : ShardingStrategy) (st : State)
    (P : NodeRef) : list Event :=
  match fst (predecessor_sharding_specs G strategy P st) with
  | Ok (prev_sharding_specs, _, current_sharding_spec) =>
      map (λ prev, Call_shape_consistency prev current_sharding_spec) prev_sharding_specs
  | Raise _ => []
  end.

(** The calls [seg] are those the specification has for the predecessor
    [P]: the predecessor has a vector, and [seg] holds one call of the oracle
    per candidate of that vector, in its order, from the layout the candidate
    has for the operand named after [P] to the layout the strategy asks
    for. *)
Definition oracle_calls_aligned (G : Graph) (strategy : ShardingStrategy) (st : State)
    (P : NodeRef) (seg : list Event) : Prop :=
  ∃ vec current,
    node_strategies_vector st P = Some vec
    ∧ layout_asked G strategy P current
    ∧ Forall2 (λ prev_strategy ev,
                 ∃ prev_layout,
                   get_sharding_spec_by_name prev_strategy (str G P) = Ok prev_layout
                   ∧ ev = Call_shape_consistency prev_layout current)
              (vectors st vec) seg.

(** The layouts of a strategy that lines 112-114 hand to the check, each with
    the tensor of its operand, in the order of [items()]; and those of a
    vector, strategy after strategy. *)
Definition tensor_operand (entry : OperationData * ShardingSpec)
  : option (ShardingSpec * Tensor) :=
  match data entry.1 with
  | PyTensor tensor => Some (entry.2, tensor)
  | PyNone | PyObject _ => None
  end.

Definition tensor_operands (strategy : ShardingStrategy) : list (ShardingSpec * Tensor) :=
  omap tensor_operand (sharding_specs strategy).

Definition checks_of (vec : list ShardingStrategy) : list (ShardingSpec * Tensor) :=
  flat_map tensor_operands vec.

Definition check_call (entry : ShardingSpec * Tensor) : Event :=
  Call_check_sharding_spec_validity entry.1 entry.2.

Definition passes (check : ShardingSpec → Tensor → Exc unit)
    (entry : ShardingSpec * Tensor) : Prop :=
  check entry.1 entry.2 = Ok tt.

(** Checking the entries one after the other and stopping at the first that
    raises: the entries that were checked, and the outcome. *)
Fixpoint run_checks (check : ShardingSpec → Tensor → Exc unit)
    (entries : list (ShardingSpec * Tensor))
  : list (ShardingSpec * Tensor) * Exc unit :=
  match entries with
  | [] => ([], Ok tt)
  | entry :: entries' =>
      match check entry.1 entry.2 with
      | Ok _ => let '(checked, res) := run_checks check entries' in (entry :: checked, res)
      | Raise e => ([entry], Raise e)
      end
  end.

(** ** A second scenario

    The graph of the first scenario with one more node, [e], fed by [a],
    which has been processed, and by [p0], which has not. *)

Module MoreScenario.

Definition e : NodeRef := 6%nat.
Definition vector_e : VecRef := 14%nat.

Definition node_table (n : NodeRef) : Node :=
  match n with
  | 6%nat => mkNode "e" "" [Scenario.a; Scenario.p0] []
  | _ => Scenario.node_table n
  end.

Definition graph := mkGraph node_table (Some Scenario.root).

Definition handler_e := NodeHandler__init__ graph e Scenario.mesh vector_e.

Definition strategy_e : ShardingStrategy :=
  mkShardingStrategy
    [(mkOperationData "a" ARG (PyTensor Scenario.tensor_8x8), Scenario.replicated);
     (mkOperationData "p0" ARG (PyTensor Scenario.tensor_8x8), Scenario.replicated);
     (mkOperationData "e" OUTPUT (PyTensor Scenario.tensor_8x8), Scenario.replicated)]
    None None None.

End MoreScenario.

(** ** A third scenario

    A module whose parameters [w1] and [w2] are one and the same object (tied
    weights), whose [bias] is registered with [None], and whose buffer
    [steps] stands alone; the node [t] is bound to it. *)

Module TiedScenario.

Definition shared_weight := mkTensorObject 7 (mkTensor [8; 8]).
Definition own_weight := mkTensorObject 8 (mkTensor [8; 8]).
Definition steps := mkTensorObject 9 (mkTensor []).

Definition tied :=
  mkModule "Tied" ["forward"; "training"]
           [("w1", Some shared_weight); ("bias", None);
            ("w2", Some shared_weight); ("w3", Some own_weight)]
           [("steps", Some steps)] [].

Definition root :=
  mkModule "GraphModule" ["forward"; "training"] [] []
           [("tied", Some tied); ("removed", None)].

Definition t : NodeRef := 0%nat.
Definition u : NodeRef := 1%nat.
Definition v : NodeRef := 2%nat.
Definition w : NodeRef := 3%nat.
Definition vector_t : VecRef := 20%nat.

Definition node_table (n : NodeRef) : Node :=
  match n with
  | 0%nat => mkNode "t" "tied" [] []
  | 1%nat => mkNode "u" "removed" [] []
  | 2%nat => mkNode "v" "tied.forward" [] []
  | _ => mkNode "w" "tied.missing" [] []
  end.

Definition graph := mkGraph node_table (Some root).

End TiedScenario.

(** * Properties *)

(** ** Dictionaries *)

Section PyDictFacts.
Context {K V : Type} `{EqDecision K}.
Implicit Types (k : K) (v : V) (d : list (K * V)).

Lemma dict_get_set_eq k v d : dict_get k (dict_set k v d) = Some v.
Proof.
  induction d as [|[k' v'] d IH]; simpl.
  - by rewrite decide_True.
  - destruct (decide (k' = k)) as [->|Hne]; simpl.
    + by rewrite decide_True.
    + by rewrite decide_False.
Qed.

Lemma dict_get_set_ne k k' v d :
  k ≠ k' → dict_get k' (dict_set k v d) = dict_get k' d.
Proof.
  intros Hne. induction d as [|[k0 v0] d IH]; simpl.
  - by rewrite decide_False.
  - destruct (decide (k0 = k)) as [->|Hk0]; simpl.
    + by rewrite !(decide_False (P := k = k')).
    + by rewrite IH.
Qed.

Lemma dict_set_set k v1 v2 d : dict_set k v2 (dict_set k v1 d) = dict_set k v2 d.
Proof.
  induction d as [|[k0 v0] d IH]; simpl.
  - by rewrite decide_True.
  - destruct (decide (k0 = k)) as [->|Hk0]; simpl.
    + by rewrite decide_True.
    + by rewrite decide_False, IH.
Qed.

Lemma dict_set_keys k v d :
  ∀ k0, k0 ∈ map fst (dict_set k v d) → k0 = k ∨ k0 ∈ map fst d.
Proof.
  induction d as [|[k1 v1] d IH]; simpl; intros k0 Hin.
  - apply list_elem_of_singleton in Hin. by left.
  - destruct (decide (k1 = k)) as [->|Hk1]; simpl in Hin.
    + by right.
    + apply elem_of_cons in Hin as [->|Hin].
      * right. by left.
      * destruct (IH _ Hin) as [->|?]; [by left|right; by right].
Qed.

Lemma dict_set_entries k v d :
  ∀ k0 v0, (k0, v0) ∈ dict_set k v d → v0 = v ∨ (k0, v0) ∈ d.
Proof.
  induction d as [|[k1 v1] d IH]; simpl; intros k0 v0 Hin.
  - apply list_elem_of_singleton in Hin. left. congruence.
  - destruct (decide (k1 = k)) as [->|Hk1].
    + apply elem_of_cons in Hin as [Heq|Hin]; [left; congruence|].
      right. by right.
    + apply elem_of_cons in Hin as [Heq|Hin].
      * right. rewrite Heq. by left.
      * destruct (IH _ _ Hin) as [->|?]; [by left|right; by right].
Qed.

Lemma dict_get_None k d : k ∉ map fst d → dict_get k d = None.
Proof.
  induction d as [|[k1 v1] d IH]; simpl; [done|].
  intros Hnin. apply not_elem_of_cons in Hnin as [Hne Hnin].
  rewrite decide_False by done. by apply IH.
Qed.

Lemma dict_get_Some_elem k v d : dict_get k d = Some v → (k, v) ∈ d.
Proof.
  induction d as [|[k1 v1] d IH]; simpl; [done|].
  destruct (decide (k1 = k)) as [->|Hne].
  - intros [= ->]. by left.
  - intros Hget. right. by apply IH.
Qed.
End PyDictFacts.

(** ** The store *)

Lemma add_calls_nil st : add_calls st [] = st.
Proof. destruct st. unfold add_calls. simpl. by rewrite app_nil_r. Qed.

Lemma add_calls_app st new1 new2 :
  add_calls (add_calls st new1) new2 = add_calls st (new1 ++ new2).
Proof. unfold add_calls. simpl. by rewrite (assoc_L (++)). Qed.

Lemma dict_set_id {K V} `{EqDecision K} (k : K) (v : V) d :
  dict_get k d = Some v → dict_set k v d = d.
Proof.
  induction d as [|[k1 v1] d IH]; simpl; [done|].
  destruct (decide (k1 = k)) as [->|Hne].
  - by intros [= ->].
  - intros Hget. by rewrite IH.
Qed.

Lemma nodes_only_nil : nodes_only [].
Proof. intros k Hk. by apply elem_of_nil in Hk. Qed.

Lemma nodes_only_set n v rc : nodes_only rc → nodes_only (dict_set (KNode n) v rc).
Proof.
  intros Hrc k Hk. apply dict_set_keys in Hk as [->|Hk]; [by exists n|by apply Hrc].
Qed.

Lemma nodes_only_not_contains op rc :
  nodes_only rc → dict_contains (KOperationData op) rc = false.
Proof.
  intros Hrc. unfold dict_contains. rewrite dict_get_None.
  - apply bool_decide_eq_false. by intros [? ?].
  - intros Hin. by destruct (Hrc _ Hin) as [n ?].
Qed.

(** ** [update_resharding_cost] *)

Lemma exc_map_Ok {A B} (f : A → Exc B) (l : list A) (bs : list B) :
  exc_map f l = Ok bs →
  length bs = length l
  ∧ ∀ i a, l !! i = Some a → ∃ b, f a = Ok b ∧ bs !! i = Some b.
Proof.
  revert bs. induction l as [|a l IH]; simpl; intros bs Hmap.
  - injection Hmap as <-. split; [done|]. intros i a Hi. by rewrite lookup_nil in Hi.
  - destruct (f a) as [b|e] eqn:Hfa; simpl in Hmap; [|done].
    destruct (exc_map f l) as [bs'|e]; simpl in Hmap; [|done].
    injection Hmap as <-. destruct (IH bs' eq_refl) as [Hlen Hall].
    split; [simpl; by rewrite Hlen|].
    intros [|i] a' Hi; simpl in Hi.
    + injection Hi as <-. by exists b.
    + by apply Hall.
Qed.

Section UpdateFacts.
Variable G : Graph.
Variable shape_consistency : ShardingSpec → ShardingSpec → ReshardingCost.

Abbreviation specs_of := (predecessor_sharding_specs G).
Abbreviation item cur := (λ prev, to_item (shape_consistency prev cur)).
Abbreviation oracle_call cur := (λ prev, Call_shape_consistency prev cur).
Abbreviation loop_post := (loop_post G shape_consistency).

(** Reading the layouts does not change the store, and depends on it only
    through the vectors and the attribute of the nodes. *)
Lemma predecessor_sharding_specs_state strategy n st :
  snd (specs_of strategy n st) = st.
Proof.
  unfold predecessor_sharding_specs, bind, get_state, lift, raise, ret.
  destruct (node_strategies_vector st n); [|done].
  destruct (exc_map _ _); [|done].
  destruct (get_op_data_by_name _ _); [|done].
  by destruct (sharding_specs_getitem _ _).
Qed.

Lemma predecessor_sharding_specs_add_calls strategy n st new :
  fst (specs_of strategy n (add_calls st new)) = fst (specs_of strategy n st).
Proof.
  unfold predecessor_sharding_specs, bind, get_state, lift, raise, ret. simpl.
  destruct (node_strategies_vector st n); [|done].
  destruct (exc_map _ _); [|done].
  destruct (get_op_data_by_name _ _); [|done].
  by destruct (sharding_specs_getitem _ _).
Qed.

Lemma first_error_add_calls strategy st new l :
  first_error G strategy (add_calls st new) l = first_error G strategy st l.
Proof.
  induction l as [|n l IH]; simpl; [done|].
  by rewrite predecessor_sharding_specs_add_calls, IH.
Qed.

Lemma predecessor_sharding_specs_no_vector strategy n st :
  node_strategies_vector st n = None →
  fst (specs_of strategy n st) = Raise (no_strategy_vector G n).
Proof.
  intros Hnone. unfold predecessor_sharding_specs, bind, get_state. simpl.
  by rewrite Hnone.
Qed.

(** The inner loop appends, in order, one item per layout of the
    predecessor, and consults the oracle once for each. *)
Lemma append_loop n cur prevs : ∀ rc st l0,
  dict_get (KNode n) rc = Some l0 →
  for_fold (append_resharding_cost G shape_consistency n cur) prevs rc st
  = (Ok (dict_set (KNode n) (l0 ++ map (item cur) prevs) rc),
     add_calls st (map (oracle_call cur) prevs)).
Proof.
  induction prevs as [|prev prevs IH]; intros rc st l0 Hget; simpl.
  - by rewrite app_nil_r, add_calls_nil, (dict_set_id _ _ _ Hget).
  - unfold bind at 1, append_resharding_cost at 1, call_shape_consistency.
    unfold bind, record_call, ret. simpl. rewrite Hget.
    erewrite IH by apply dict_get_set_eq.
    rewrite dict_set_set, <- (assoc_L (++)). simpl.
    f_equal. unfold add_calls. simpl. by rewrite <- (assoc_L (++)).
Qed.

(** One predecessor, in closed form. *)
Lemma predecessor_step_ok strategy rc n st prevs op cur :
  nodes_only rc →
  fst (specs_of strategy n st) = Ok (prevs, op, cur) →
  predecessor_resharding_costs G shape_consistency strategy rc n st
  = (Ok (dict_set (KNode n) (map (item cur) prevs) rc),
     add_calls st (map (oracle_call cur) prevs)).
Proof.
  intros Hrc Hspecs. unfold predecessor_resharding_costs, bind.
  pose proof (predecessor_sharding_specs_state strategy n st) as Hst.
  destruct (specs_of strategy n st) as [res st1]. simpl in *. subst.
  rewrite (nodes_only_not_contains _ _ Hrc). simpl.
  erewrite append_loop by apply dict_get_set_eq.
  by rewrite dict_set_set.
Qed.

Lemma predecessor_step_raise strategy rc n st e :
  fst (specs_of strategy n st) = Raise e →
  predecessor_resharding_costs G shape_consistency strategy rc n st = (Raise e, st).
Proof.
  intros Hspecs. unfold predecessor_resharding_costs, bind.
  pose proof (predecessor_sharding_specs_state strategy n st) as Hst.
  destruct (specs_of strategy n st) as [res st1]. simpl in *. by subst.
Qed.

Lemma predecessors_loop strategy : ∀ l rc st,
  nodes_only rc →
  ∃ res new,
    for_fold (predecessor_resharding_costs G shape_consistency strategy) l rc st
    = (res, add_calls st new)
    ∧ Forall is_oracle_call new
    ∧ loop_post strategy st l rc res new.
Proof.
  induction l as [|n l IH]; intros rc st Hrc; simpl.
  - exists (Ok rc), []. rewrite add_calls_nil.
    split; [done|]. split; [done|]. simpl.
    split; [done|]. split; [done|]. split; [|split].
    + intros P HP. by apply elem_of_nil in HP.
    + done.
    + intros k costs Hin. by left.
  - unfold bind at 1.
    destruct (fst (specs_of strategy n st)) as [[[prevs op] cur]|e] eqn:Hspecs.
    + rewrite (predecessor_step_ok _ _ _ _ _ _ _ Hrc Hspecs).
      set (rc1 := dict_set (KNode n) (map (item cur) prevs) rc).
      set (new1 := map (oracle_call cur) prevs).
      destruct (IH rc1 (add_calls st new1)) as (res & new2 & Hrun & Hnew2 & Hpost).
      { by apply nodes_only_set. }
      exists res, (new1 ++ new2). rewrite Hrun, add_calls_app.
      split; [done|]. split.
      { apply Forall_app. split; [|done]. subst new1.
        apply Forall_map. by apply Forall_true. }
      unfold loop_post in *. simpl. rewrite Hspecs.
      rewrite first_error_add_calls in Hpost.
      destruct res as [rc'|e]; [|done].
      destruct Hpost as (Hfirst & Hnodes & Hpreds & Hframe & Hitems).
      split; [done|]. split; [done|]. split; [|split].
      * intros P HP. destruct (decide (P ∈ l)) as [Hin|Hnin].
        { destruct (Hpreds P Hin) as (prevs' & op' & cur' & Hs & Hg).
          rewrite predecessor_sharding_specs_add_calls in Hs. eauto 6. }
        apply elem_of_cons in HP as [->|?]; [|done].
        exists prevs, op, cur. split; [done|].
        rewrite Hframe; [apply dict_get_set_eq|].
        intros Q HQ [= ->]. done.
      * intros k Hk. rewrite Hframe.
        { apply dict_get_set_ne. intros <-. eapply Hk; [left|done]. }
        intros P HP. apply Hk. by right.
      * intros k costs Hin. destruct (Hitems k costs Hin) as [Hold|Hnew].
        { apply dict_set_entries in Hold as [->|Hold]; [|by left].
          right. apply Forall_map, Forall_forall. intros prev Hprev.
          exists prev, cur. split; [|done].
          apply elem_of_app. left. subst new1.
          apply list_elem_of_fmap. eauto. }
        right. eapply Forall_impl; [exact Hnew|].
        intros it (prev & cur' & Hcall & ->). exists prev, cur'.
        split; [|done]. apply elem_of_app. by right.
    + rewrite (predecessor_step_raise _ _ _ _ _ Hspecs).
      exists (Raise e), []. rewrite add_calls_nil.
      split; [done|]. split; [done|]. simpl. by rewrite Hspecs.
Qed.

(** The whole method: one recorded entry, the calls of the oracle, and the
    strategy with the dictionary of the loop. *)
Lemma update_resharding_cost_run self strategy st :
  ∃ res new,
    for_fold (predecessor_resharding_costs G shape_consistency strategy)
             (predecessor_node self) []
             (add_calls st [Call_update_resharding_cost strategy])
    = (res, add_calls st (Call_update_resharding_cost strategy :: new))
    ∧ Forall is_oracle_call new
    ∧ loop_post strategy st (predecessor_node self) [] res new
    ∧ update_resharding_cost G shape_consistency self strategy st
      = (match res with
         | Ok rc => Ok (set_resharding_costs strategy rc)
         | Raise e => Raise e
         end, add_calls st (Call_update_resharding_cost strategy :: new)).
Proof.
  destruct (predecessors_loop strategy (predecessor_node self) []
              (add_calls st [Call_update_resharding_cost strategy]) nodes_only_nil)
    as (res & new & Hrun & Hnew & Hpost).
  rewrite add_calls_app in Hrun. simpl in Hrun.
  exists res, new. split; [done|]. split; [done|]. split.
  - unfold loop_post in *. rewrite first_error_add_calls in Hpost.
    destruct res as [rc|e]; [|done].
    destruct Hpost as (? & ? & Hpreds & ? & ?). repeat split; try done.
    intros P HP. destruct (Hpreds P HP) as (prevs & op & cur & Hs & Hg).
    rewrite predecessor_sharding_specs_add_calls in Hs. eauto 6.
  - unfold update_resharding_cost, bind, record_call. fold (add_calls st [Call_update_resharding_cost strategy]).
    rewrite Hrun. by destruct res.
Qed.

(** What was read when the layouts of a predecessor could be read. *)
Lemma predecessor_sharding_specs_Ok strategy n st prevs op cur :
  fst (specs_of strategy n st) = Ok (prevs, op, cur) →
  ∃ vec,
    node_strategies_vector st n = Some vec
    ∧ exc_map (λ prev_strategy, get_sharding_spec_by_name prev_strategy (str G n))
              (vectors st vec) = Ok prevs
    ∧ get_op_data_by_name strategy (str G n) = Ok op
    ∧ sharding_specs_getitem strategy op = Ok cur.
Proof.
  unfold predecessor_sharding_specs, bind, get_state, lift, raise, ret.
  destruct (node_strategies_vector st n) as [vec|]; [|done].
  destruct (exc_map _ _) as [prevs'|] eqn:Hprevs; [|done].
  destruct (get_op_data_by_name _ _) as [op'|] eqn:Hop; [|done].
  destruct (sharding_specs_getitem _ _) as [cur'|] eqn:Hcur; [|done].
  simpl. intros [= -> -> ->]. by exists vec.
Qed.

(** The costs built from the layouts read are those of the candidates of the
    predecessor, in the order of its vector. *)
Lemma transition_costs_of_layouts P cur vec prevs :
  exc_map (λ prev_strategy, get_sharding_spec_by_name prev_strategy (str G P)) vec
  = Ok prevs →
  Forall2 (transition_cost G shape_consistency P cur) vec (map (item cur) prevs).
Proof.
  intros Hmap. apply exc_map_Ok in Hmap as [Hlen Hall].
  apply Forall2_same_length_lookup_2; [by rewrite length_map|].
  intros i prev_strategy cost Hi Hcost.
  destruct (Hall i prev_strategy Hi) as (prev & Hprev & Hi').
  rewrite list_lookup_fmap, Hi' in Hcost. injection Hcost as <-.
  by exists prev.
Qed.
End UpdateFacts.

(** ** [register_strategy] *)

Lemma step_refl v st : step v [] [] st st.
Proof.
  split; [|split]; [|done|by rewrite app_nil_r].
  intros r. case_decide; [by rewrite app_nil_r|done].
Qed.

Lemma step_trans v a1 a2 n1 n2 st1 st2 st3 :
  step v a1 n1 st1 st2 → step v a2 n2 st2 st3 → step v (a1 ++ a2) (n1 ++ n2) st1 st3.
Proof.
  intros (Hv1 & Ha1 & Hc1) (Hv2 & Ha2 & Hc2). split; [|split].
  - intros r. rewrite Hv2, Hv1. case_decide; [by rewrite (assoc_L (++))|done].
  - congruence.
  - by rewrite Hc2, Hc1, (assoc_L (++)).
Qed.

Lemma step_add_calls v st new : step v [] new st (add_calls st new).
Proof.
  split; [|split]; [|done|done].
  intros r. simpl. case_decide; [by rewrite app_nil_r|done].
Qed.

Lemma step_extend v added st : step v added [] st (snd (extend v added st)).
Proof. split; [|split]; simpl; [done|done|by rewrite app_nil_r]. Qed.

Lemma computed_nil G sc self st : computed G sc self st [] [].
Proof. split; [done|]. intros i s' Hi. by rewrite lookup_nil in Hi. Qed.

Lemma computed_cons G sc self st new c s st' cands added :
  update_resharding_cost G sc self c st = (Ok s, st') →
  computed G sc self (add_calls st new) cands added →
  computed G sc self st (c :: cands) (s :: added).
Proof.
  intros Hrun [Hlen Hall]. split; [simpl; by rewrite Hlen|].
  intros [|i] s' Hi; simpl in Hi.
  - injection Hi as <-. exists c, [], [], st, st'.
    split; [done|]. split; [apply step_refl|]. split; [done|done].
  - destruct (Hall i s' Hi) as (c' & earlier & new' & st1 & st2 & Hc & Hstep & Hle & Hrun').
    exists c', earlier, (new ++ new'), st1, st2. split; [done|]. split.
    + apply (step_trans _ [] earlier new new' st (add_calls st new) st1);
        [apply step_add_calls|done].
    + split; [lia|done].
Qed.

Lemma computed_app G sc self st st' new c1 a1 c2 a2 :
  computed G sc self st c1 a1 →
  step (strategies_vector self) a1 new st st' →
  computed G sc self st' c2 a2 →
  computed G sc self st (c1 ++ c2) (a1 ++ a2).
Proof.
  intros [Hlen1 Hall1] Hstep [Hlen2 Hall2]. split.
  { rewrite !length_app. lia. }
  intros i s' Hi. apply lookup_app_Some in Hi as [Hi|[Hge Hi]].
  - destruct (Hall1 i s' Hi) as (c & earlier & new' & st1 & st2 & Hc & ? & ? & ?).
    exists c, earlier, new', st1, st2. split; [|done]. by apply lookup_app_l_Some.
  - destruct (Hall2 _ s' Hi) as (c & earlier & new' & st1 & st2 & Hc & Hstep' & Hle & Hrun).
    exists c, (a1 ++ earlier), (new ++ new'), st1, st2. split; [|split; [|split]].
    + rewrite lookup_app_r by lia. by rewrite <- Hlen1.
    + by eapply step_trans.
    + rewrite length_app. lia.
    + done.
Qed.

Lemma committed_app G sc self flag st st' new c1 a1 c2 a2 :
  committed G sc self flag st c1 a1 →
  step (strategies_vector self) a1 new st st' →
  committed G sc self flag st' c2 a2 →
  committed G sc self flag st (c1 ++ c2) (a1 ++ a2).
Proof.
  destruct flag; simpl; [apply computed_app|]. by intros -> _ ->.
Qed.

Lemma candidates_pipeline `{NodeHandlerClass} self generator :
  candidates self generator = pipeline_of_raw self (generate generator).
Proof.
  unfold candidates, flatten_post_processed.
  induction (generate generator) as [|strategy raw IH]; simpl; [done|].
  rewrite IH. by destruct (post_process self strategy).
Qed.

(** The candidates the code collects are those of the specification, in its
    order. *)
Lemma all_candidates_pipeline_order `{NodeHandlerClass} self generators :
  all_candidates self generators = pipeline_order self generators.
Proof.
  unfold all_candidates. induction generators as [|g gs IH]; simpl; [done|].
  by rewrite candidates_pipeline, IH.
Qed.

Lemma updated_strategies_app log1 log2 :
  updated_strategies (log1 ++ log2) = updated_strategies log1 ++ updated_strategies log2.
Proof. apply omap_app. Qed.

Lemma updated_strategies_oracle log :
  Forall is_oracle_call log → updated_strategies log = [].
Proof.
  induction 1 as [|ev log Hev _ IH]; [done|].
  by destruct ev.
Qed.

Lemma updated_strategies_check log :
  Forall is_check_call log → updated_strategies log = [].
Proof.
  induction 1 as [|ev log Hev _ IH]; [done|].
  by destruct ev.
Qed.

Section RegisterFacts.
Variable G : Graph.
Variable shape_consistency : ShardingSpec → ShardingSpec → ReshardingCost.
Variable check : ShardingSpec → Tensor → Exc unit.
Context {cls : NodeHandlerClass}.

Abbreviation update := (update_resharding_cost G shape_consistency).
Abbreviation generator_step := (register_generator G shape_consistency).
Abbreviation validate :=
  (for_each (λ strategy, for_each (check_operand check) (sharding_specs strategy))).

(** [list(map(self.update_resharding_cost, candidates))]. *)
Lemma map_list_update self cands : ∀ st,
  ∃ res new,
    map_list (update self) cands st = (res, add_calls st new)
    ∧ Forall (λ ev, ¬ is_check_call ev) new
    ∧ match res with
      | Ok added => computed G shape_consistency self st cands added
      | Raise _ => True
      end.
Proof.
  induction cands as [|c cands IH]; intros st; simpl.
  - exists (Ok []), []. rewrite add_calls_nil. repeat split; [done|].
    intros i s' Hi. by rewrite lookup_nil in Hi.
  - destruct (update_resharding_cost_run G shape_consistency self c st)
      as (res1 & new1 & _ & Hnew1 & _ & Hrun1).
    unfold bind at 1. rewrite Hrun1.
    set (st1 := add_calls st (Call_update_resharding_cost c :: new1)) in *.
    assert (Forall (λ ev, ¬ is_check_call ev) (Call_update_resharding_cost c :: new1))
      as Hnocheck.
    { constructor; [by intros []|]. eapply Forall_impl; [exact Hnew1|].
      intros [] Ho Hc; simpl in *; done. }
    destruct res1 as [rc1|e]; cycle 1.
    { exists (Raise e), (Call_update_resharding_cost c :: new1). by repeat split. }
    destruct (IH st1) as (res2 & new2 & Hrun2 & Hnew2 & Hpost).
    unfold bind. rewrite Hrun2. subst st1. rewrite add_calls_app.
    destruct res2 as [added|e]; cycle 1.
    { eexists (Raise e), _. split; [done|]. split; [|done].
      apply Forall_app. by split. }
    eexists (Ok (set_resharding_costs c rc1 :: added)), _. split; [done|]. split.
    { apply Forall_app. by split. }
    by eapply computed_cons.
Qed.

(** One generator: its candidates are committed together, or not at all. *)
Lemma register_generator_run self flag generator st :
  ∃ res added new st',
    generator_step self flag generator st = (res, st')
    ∧ step (strategies_vector self) added new st st'
    ∧ Forall (λ ev, ¬ is_check_call ev) new
    ∧ (flag = false → new = [] ∧ res = Ok tt)
    ∧ match res with
      | Ok _ => committed G shape_consistency self flag st
                  (candidates self generator) added
      | Raise _ => added = []
      end.
Proof.
  unfold register_generator. fold (candidates self generator).
  destruct flag.
  - destruct (map_list_update self (candidates self generator) st)
      as (res & new & Hrun & Hnew & Hpost).
    unfold bind. rewrite Hrun. destruct res as [added|e].
    + exists (Ok tt), added, new,
        (snd (extend (strategies_vector self) added (add_calls st new))).
      split; [done|]. split.
      { pose proof (step_trans _ _ _ _ _ _ _ _
                      (step_add_calls (strategies_vector self) st new)
                      (step_extend (strategies_vector self) added (add_calls st new)))
          as Hstep.
        by rewrite app_nil_r in Hstep. }
      split; [done|]. split; [done|]. exact Hpost.
    + eexists (Raise e), [], new, _. split; [done|].
      split; [apply step_add_calls|]. split; [done|]. split; done.
  - unfold bind, ret. eexists (Ok tt), (candidates self generator), [], _.
    split; [done|]. split; [apply step_extend|]. split; [done|]. split; done.
Qed.

(** The loop over the generators commits the candidates of a prefix of
    them, the whole sequence unless a computation of costs raised. *)
Lemma generators_loop self flag : ∀ generators st,
  ∃ res done rest added new st',
    for_each (generator_step self flag) generators st = (res, st')
    ∧ generators = done ++ rest
    ∧ step (strategies_vector self) added new st st'
    ∧ Forall (λ ev, ¬ is_check_call ev) new
    ∧ (flag = false → new = [] ∧ res = Ok tt)
    ∧ (res = Ok tt → rest = [])
    ∧ committed G shape_consistency self flag st (all_candidates self done) added.
Proof.
  induction generators as [|g generators IH]; intros st; simpl.
  - exists (Ok tt), [], [], [], [], st.
    split; [done|]. split; [done|]. split; [apply step_refl|].
    split; [done|]. split; [done|]. split; [done|].
    destruct flag; simpl; [apply computed_nil|done].
  - destruct (register_generator_run self flag g st)
      as (res1 & added1 & new1 & st1 & Hrun1 & Hstep1 & Hnew1 & Hfalse1 & Hpost1).
    unfold bind at 1. rewrite Hrun1. destruct res1 as [[]|e]; cycle 1.
    { exists (Raise e), [], (g :: generators), [], new1, st1. subst added1.
      split; [done|]. split; [done|]. split; [done|]. split; [done|].
      split; [intros Hflag; by destruct (Hfalse1 Hflag)|]. split; [done|].
      destruct flag; simpl; [apply computed_nil|done]. }
    destruct (IH st1)
      as (res & done & rest & added & new & st' & Hrun & Hsplit & Hstep & Hnew
          & Hfalse & Hok & Hpost).
    exists res, (g :: done), rest, (added1 ++ added), (new1 ++ new), st'.
    split; [done|]. split; [by rewrite Hsplit|].
    split; [by eapply step_trans|]. split; [apply Forall_app; by split|].
    split.
    { intros Hflag. destruct (Hfalse1 Hflag) as [-> _].
      by destruct (Hfalse Hflag) as [-> ->]. }
    split; [done|].
    unfold all_candidates. simpl. by eapply committed_app.
Qed.

(** The entries into [update_resharding_cost] that the log records: one per
    candidate, in order, up to the candidate whose costs could not be
    computed. *)
Lemma map_list_update_log self cands : ∀ st,
  ∃ seen more,
    cands = seen ++ more
    ∧ updated_strategies (calls (snd (map_list (update self) cands st)))
      = updated_strategies (calls st) ++ seen
    ∧ (∀ added, fst (map_list (update self) cands st) = Ok added → more = []).
Proof.
  induction cands as [|c cands IH]; intros st; simpl.
  - exists [], []. split; [done|]. split; [by rewrite app_nil_r|done].
  - destruct (update_resharding_cost_run G shape_consistency self c st)
      as (res1 & new1 & _ & Hnew1 & _ & Hrun1).
    unfold bind. rewrite Hrun1. destruct res1 as [rc1|e].
    + destruct (IH (add_calls st (Call_update_resharding_cost c :: new1)))
        as (seen & more & -> & Hlog & Hok).
      exists (c :: seen), more. split; [done|].
      destruct (map_list (update self) (seen ++ more) _) as [[added|e] st2];
        simpl in *.
      * split; [|intros ? _; by eapply Hok].
        rewrite Hlog, updated_strategies_app. simpl.
        rewrite (updated_strategies_oracle _ Hnew1).
        by rewrite <- (assoc_L (++)).
      * split; [|done].
        rewrite Hlog, updated_strategies_app. simpl.
        rewrite (updated_strategies_oracle _ Hnew1).
        by rewrite <- (assoc_L (++)).
    + exists [c], cands. split; [done|]. simpl. split; [|done].
      rewrite updated_strategies_app. simpl.
      by rewrite (updated_strategies_oracle _ Hnew1).
Qed.

Lemma register_generator_log self generator st :
  ∃ seen more,
    candidates self generator = seen ++ more
    ∧ updated_strategies (calls (snd (generator_step self true generator st)))
      = updated_strategies (calls st) ++ seen
    ∧ (fst (generator_step self true generator st) = Ok tt → more = []).
Proof.
  unfold register_generator. fold (candidates self generator).
  destruct (map_list_update_log self (candidates self generator) st)
    as (seen & more & Hsplit & Hlog & Hok).
  exists seen, more. split; [done|]. unfold bind.
  destruct (map_list (update self) (candidates self generator) st)
    as [[added|e] st1]; simpl in *; [|done].
  split; [done|]. intros _. by eapply Hok.
Qed.

Lemma generators_loop_log self : ∀ generators st,
  ∃ seen more,
    all_candidates self generators = seen ++ more
    ∧ updated_strategies (calls (snd (for_each (generator_step self true) generators st)))
      = updated_strategies (calls st) ++ seen
    ∧ (fst (for_each (generator_step self true) generators st) = Ok tt → more = []).
Proof.
  induction generators as [|g generators IH]; intros st.
  - exists [], []. simpl. split; [done|]. split; [by rewrite app_nil_r|done].
  - destruct (register_generator_log self g st) as (seen1 & more1 & Hsplit1 & Hlog1 & Hok1).
    cbn [for_each]. unfold bind.
    change (all_candidates self (g :: generators))
      with (candidates self g ++ all_candidates self generators).
    destruct (generator_step self true g st) as [[[]|e] st1]; simpl in Hlog1, Hok1.
    + rewrite (Hok1 eq_refl), app_nil_r in Hsplit1.
      destruct (IH st1) as (seen & more & Hsplit & Hlog & Hok).
      exists (seen1 ++ seen), more. split; [|split].
      * by rewrite Hsplit1, Hsplit, (assoc_L (++)).
      * by rewrite Hlog, Hlog1, (assoc_L (++)).
      * done.
    + exists seen1, (more1 ++ all_candidates self generators). simpl.
      split; [by rewrite Hsplit1, (assoc_L (++))|done].
Qed.

(** The validation of one operand, of one strategy, and of a vector. *)
Lemma check_operand_tensor op spec t st :
  data op = PyTensor t →
  check_operand check (op, spec) st
  = (check spec t, add_calls st [Call_check_sharding_spec_validity spec t]).
Proof. intros Hdata. unfold check_operand. by rewrite Hdata. Qed.

Lemma check_operand_other op spec st :
  (∀ t, data op ≠ PyTensor t) → check_operand check (op, spec) st = (Ok tt, st).
Proof.
  intros Hdata. unfold check_operand.
  destruct (data op) as [|t|repr]; [done| |done]. by destruct (Hdata t).
Qed.

Lemma check_operands_run specs : ∀ st,
  ∃ res new,
    for_each (check_operand check) specs st = (res, add_calls st new)
    ∧ Forall is_check_call new
    ∧ (∀ spec t, Call_check_sharding_spec_validity spec t ∈ new →
         ∃ op, (op, spec) ∈ specs ∧ data op = PyTensor t)
    ∧ match res with
      | Ok _ => ∀ op spec t, (op, spec) ∈ specs → data op = PyTensor t →
                  check spec t = Ok tt
      | Raise e => ∃ op spec t, (op, spec) ∈ specs ∧ data op = PyTensor t
                     ∧ check spec t = Raise e
      end.
Proof.
  induction specs as [|[op spec] specs IH]; intros st; cbn [for_each].
  - exists (Ok tt), []. rewrite add_calls_nil.
    split; [done|]. split; [done|]. split.
    + intros ?? Hin. by apply elem_of_nil in Hin.
    + intros ??? Hin. by apply elem_of_nil in Hin.
  - assert ((∃ t, data op = PyTensor t) ∨ (∀ t, data op ≠ PyTensor t))
      as [[t Hdata]|Hdata].
    { destruct (data op) as [|t|repr]; [by right|left; by exists t|by right]. }
    + unfold bind. rewrite (check_operand_tensor _ _ _ _ Hdata).
      destruct (check spec t) as [[]|e] eqn:Hcheck; cycle 1.
      { eexists (Raise e), _. split; [done|]. split; [by repeat constructor|].
        split.
        - intros s t' Hin. apply list_elem_of_singleton in Hin as [= -> ->].
          exists op. split; [by left|done].
        - exists op, spec, t. split; [by left|done]. }
      destruct (IH (add_calls st [Call_check_sharding_spec_validity spec t]))
        as (res & new & Hrun & Hnew & Hlog & Hpost).
      rewrite Hrun, add_calls_app. eexists res, _. split; [done|].
      split; [by constructor|]. split.
      * intros s t' Hin. apply elem_of_cons in Hin as [[= -> ->]|Hin].
        { exists op. split; [by left|done]. }
        destruct (Hlog s t' Hin) as (op' & ? & ?). exists op'. split; [by right|done].
      * destruct res as [[]|e].
        -- intros op' s t' Hin Hd. apply elem_of_cons in Hin as [[= -> ->]|Hin];
             [|eauto]. congruence.
        -- destruct Hpost as (op' & s & t' & ? & ? & ?).
           exists op', s, t'. split; [by right|done].
    + unfold bind. rewrite (check_operand_other _ _ _ Hdata).
      destruct (IH st) as (res & new & Hrun & Hnew & Hlog & Hpost).
      rewrite Hrun. exists res, new. split; [done|]. split; [done|]. split.
      * intros s t Hin. destruct (Hlog s t Hin) as (op' & ? & ?).
        exists op'. split; [by right|done].
      * destruct res as [[]|e].
        -- intros op' s t Hin Hd. apply elem_of_cons in Hin as [[= -> ->]|Hin];
             [by destruct (Hdata t)|eauto].
        -- destruct Hpost as (op' & s & t & ? & ? & ?).
           exists op', s, t. split; [by right|done].
Qed.

Lemma validate_run vec : ∀ st,
  ∃ res new,
    validate vec st = (res, add_calls st new)
    ∧ Forall is_check_call new
    ∧ (∀ spec t, Call_check_sharding_spec_validity spec t ∈ new →
         tensor_operand_of vec spec t)
    ∧ match res with
      | Ok _ => Forall (strategy_checks check) vec
      | Raise e => ∃ spec t, tensor_operand_of vec spec t ∧ check spec t = Raise e
      end.
Proof.
  induction vec as [|strategy vec IH]; intros st; simpl.
  - exists (Ok tt), []. rewrite add_calls_nil. repeat split; [done| |done].
    intros ?? Hin. by apply elem_of_nil in Hin.
  - destruct (check_operands_run (sharding_specs strategy) st)
      as (res1 & new1 & Hrun1 & Hnew1 & Hlog1 & Hpost1).
    unfold bind at 1. rewrite Hrun1. destruct res1 as [[]|e]; cycle 1.
    { exists (Raise e), new1. repeat split; [done| |].
      - intros spec t Hin. destruct (Hlog1 spec t Hin) as (op & ? & ?).
        exists strategy, op. split; [by left|done].
      - destruct Hpost1 as (op & spec & t & ? & ? & ?). exists spec, t.
        split; [|done]. exists strategy, op. split; [by left|done]. }
    destruct (IH (add_calls st new1)) as (res & new & Hrun & Hnew & Hlog & Hpost).
    rewrite Hrun, add_calls_app. exists res, (new1 ++ new).
    split; [done|]. split; [apply Forall_app; by split|]. split.
    + intros spec t Hin. apply elem_of_app in Hin as [Hin|Hin].
      * destruct (Hlog1 spec t Hin) as (op & ? & ?).
        exists strategy, op. split; [by left|done].
      * destruct (Hlog spec t Hin) as (s & op & ? & ? & ?).
        exists s, op. split; [by right|done].
    + destruct res as [[]|e].
      * by constructor.
      * destruct Hpost as (spec & t & (s & op & ? & ? & ?) & ?). exists spec, t.
        split; [|done]. exists s, op. split; [by right|done].
Qed.
End RegisterFacts.

Section RegisterTheorems.
Variable G : Graph.
Variable shape_consistency : ShardingSpec → ShardingSpec → ReshardingCost.
Variable check : ShardingSpec → Tensor → Exc unit.
Context {cls : NodeHandlerClass}.

(** The two phases of [register_strategy] side by side: the loop over the
    generators ends in [st1] with [res1], the validation of the vector found
    in [st1] records [new2], and the call ends with [res]. *)
Lemma register_strategy_run self flag st :
  ∃ res1 done rest added new1 st1 res new2,
    for_each (register_generator G shape_consistency self flag)
             (get_strategy_generator self) st = (res1, st1)
    ∧ get_strategy_generator self = done ++ rest
    ∧ step (strategies_vector self) added new1 st st1
    ∧ Forall (λ ev, ¬ is_check_call ev) new1
    ∧ (flag = false → new1 = [] ∧ res1 = Ok tt)
    ∧ (res1 = Ok tt → rest = [])
    ∧ committed G shape_consistency self flag st (all_candidates self done) added
    ∧ register_strategy G shape_consistency check self flag st = (res, add_calls st1 new2)
    ∧ Forall is_check_call new2
    ∧ (∀ spec t, Call_check_sharding_spec_validity spec t ∈ new2 →
         tensor_operand_of (vectors st1 (strategies_vector self)) spec t)
    ∧ match res1 with
      | Raise e => res = Raise e ∧ new2 = []
      | Ok _ =>
          match res with
          | Ok r => r = strategies_vector self
                    ∧ Forall (strategy_checks check)
                             (vectors st1 (strategies_vector self))
          | Raise e =>
              ∃ spec t, tensor_operand_of (vectors st1 (strategies_vector self)) spec t
                        ∧ check spec t = Raise e
          end
      end.
Proof.
  destruct (generators_loop G shape_consistency self flag
              (get_strategy_generator self) st)
    as (res1 & done & rest & added & new1 & st1 & Hrun1 & Hsplit & Hstep & Hnew1
        & Hfalse & Hok & Hcommitted).
  exists res1, done, rest, added, new1, st1.
  unfold register_strategy, bind at 1. rewrite Hrun1.
  destruct res1 as [[]|e]; cycle 1.
  { exists (Raise e), []. rewrite add_calls_nil. repeat (split; [done|]).
    split; [|done]. intros spec t Hin. by apply elem_of_nil in Hin. }
  unfold bind, get_state.
  destruct (validate_run check (vectors st1 (strategies_vector self)) st1)
    as (res2 & new2 & Hrun2 & Hnew2 & Hlog & Hpost).
  rewrite Hrun2.
  exists (match res2 with Ok _ => Ok (strategies_vector self) | Raise e => Raise e end),
         new2.
  repeat (split; [done|]). split; [by destruct res2|].
  split; [done|]. split; [done|]. by destruct res2.
Qed.

Lemma computed_committed_as self st cands added :
  computed G shape_consistency self st cands added →
  Forall2 (committed_as true) cands added.
Proof.
  intros [Hlen Hall]. apply Forall2_same_length_lookup_2; [done|].
  intros i c s' Hc Hs'.
  destruct (Hall i s' Hs') as (c' & earlier & new0 & st1 & st2 & Hc' & _ & _ & Hrun).
  assert (c' = c) as -> by congruence.
  destruct (update_resharding_cost_run G shape_consistency self c st1)
    as (res & new & _ & _ & _ & Hrun').
  rewrite Hrun in Hrun'. destruct res as [rc|e]; [|done].
  exists rc. congruence.
Qed.

Lemma committed_committed_as self flag st cands added :
  committed G shape_consistency self flag st cands added →
  Forall2 (committed_as flag) cands added.
Proof.
  destruct flag; simpl; [apply computed_committed_as|].
  intros ->. by apply Forall_Forall2_diag, Forall_true.
Qed.

(** What the computation leaves in the strategies it returned. *)
Lemma computed_costs_assigned self st cands added :
  computed G shape_consistency self st cands added →
  costs_assigned G shape_consistency self st cands added.
Proof.
  intros [Hlen Hall]. split; [done|].
  intros i c s' Hc Hs'.
  destruct (Hall i s' Hs')
    as (c' & earlier & new0 & st1 & st2 & Hc' & Hstep & Hle & Hrun).
  assert (c' = c) as -> by congruence.
  destruct (update_resharding_cost_run G shape_consistency self c st1)
    as (res & new & _ & _ & Hpost & Hrun').
  rewrite Hrun in Hrun'. destruct res as [rc|e]; [|done].
  injection Hrun' as -> _. simpl.
  split; [done|]. split; [done|]. split; [done|].
  exists rc. split; [done|]. intros P HP.
  destruct Hpost as (_ & _ & Hpreds & _ & _).
  destruct (Hpreds P HP) as (prevs & op & cur & Hspecs & Hget).
  apply predecessor_sharding_specs_Ok in Hspecs as (vec & Hvec & Hmap & Hop & Hcur).
  destruct Hstep as (Hvecs & Hattr & _).
  exists vec, cur, (map (λ prev, to_item (shape_consistency prev cur)) prevs),
         (if decide (vec = strategies_vector self) then earlier else []).
  split; [by rewrite <- Hattr|]. split; [by exists op|]. split; [done|].
  split; [intros Hne; by rewrite decide_False|].
  split; [case_decide; simpl; lia|].
  apply transition_costs_of_layouts. rewrite Hvecs in Hmap.
  case_decide; [done|by rewrite app_nil_r].
Qed.

(** C8. The strategies vector is append-only during registration: whatever
    the outcome of [register_strategy], the vector the handler was built
    with holds, after the call, its former entries in their former order
    followed by the appended ones; no other vector and no node attribute
    changes; and a call that returns, returns that very vector. *)
Theorem register_strategy_append_only self flag st :
  (∃ added, ∀ r,
      vectors (snd (register_strategy G shape_consistency check self flag st)) r
      = if decide (r = strategies_vector self) then vectors st r ++ added
        else vectors st r)
  ∧ node_strategies_vector (snd (register_strategy G shape_consistency check self flag st)) = node_strategies_vector st
  ∧ (∀ r, fst (register_strategy G shape_consistency check self flag st) = Ok r → r = strategies_vector self).
Proof.
  destruct (register_strategy_run self flag st)
    as (res1 & done & rest & added & new1 & st1 & res & new2 & _ & _ & Hstep & _ & _
        & _ & _ & Hrun & _ & _ & Hpost).
  rewrite Hrun. simpl. destruct Hstep as (Hvec & Hattr & _).
  split; [by exists added|]. split; [done|].
  intros r ->. destruct res1 as [[]|e]; [by destruct Hpost|by destruct Hpost].
Qed.


(** C9. With [compute_resharding_cost] false, [register_strategy] records no
    call of [update_resharding_cost] and no call of the oracle (the only
    calls it records are those of the validity check), and it appends the
    post-processed candidates as they are, so that no [resharding_costs]
    field is assigned.  With the flag true, the strategies appended are the
    candidates of the generators processed, position by position, each with
    its [resharding_costs] assigned: for every predecessor one cost per
    candidate of the predecessor, the values of the oracle for the layout of
    that candidate and the layout the strategy asks for.  Every appended
    strategy is what [update_resharding_cost] returned for the candidate at
    its position, in a store where the vector had grown by no more entries
    than precede the position: the costs are computed before the strategy is
    appended.  The log records an entry into [update_resharding_cost] for the
    candidates in the order of the pipeline, none twice and none out of
    turn; and when the call returns, every generator was processed and the
    entries recorded are those for all the candidates. *)
Theorem register_strategy_flag self st :
  (∃ new,
      calls (snd (register_strategy G shape_consistency check self false st)) = calls st ++ new
      ∧ Forall is_check_call new
      ∧ vectors (snd (register_strategy G shape_consistency check self false st)) (strategies_vector self)
        = vectors st (strategies_vector self)
          ++ pipeline_order self (get_strategy_generator self))
  ∧ (∃ done rest added new,
        get_strategy_generator self = done ++ rest
        ∧ vectors (snd (register_strategy G shape_consistency check self true st)) (strategies_vector self)
          = vectors st (strategies_vector self) ++ added
        ∧ calls (snd (register_strategy G shape_consistency check self true st)) = calls st ++ new
        ∧ costs_assigned G shape_consistency self st (pipeline_order self done) added
        ∧ computed G shape_consistency self st (pipeline_order self done) added
        ∧ updated_strategies new `prefix_of` pipeline_order self (get_strategy_generator self)
        ∧ (∀ r, fst (register_strategy G shape_consistency check self true st) = Ok r →
             rest = []
             ∧ updated_strategies new = pipeline_order self (get_strategy_generator self))).
Proof.
  split.
  - destruct (register_strategy_run self false st)
      as (res1 & done & rest & added & new1 & st1 & res & new2 & _ & Hsplit & Hstep & _
          & Hfalse & Hok & Hcommitted & Hrun & Hnew2 & _ & _).
    destruct (Hfalse eq_refl) as [-> ->]. rewrite (Hok eq_refl), app_nil_r in Hsplit.
    simpl in Hcommitted. subst added. rewrite Hrun. simpl.
    destruct Hstep as (Hvec & _ & Hcalls). exists new2.
    rewrite Hcalls, app_nil_r, Hvec, decide_True, Hsplit by done.
    by rewrite all_candidates_pipeline_order.
  - destruct (register_strategy_run self true st)
      as (res1 & done & rest & added & new1 & st1 & res & new2 & Hrun1 & Hsplit & Hstep & _
          & _ & Hok & Hcommitted & Hrun & Hnew2 & _ & Hpost).
    destruct (generators_loop_log G shape_consistency self (get_strategy_generator self) st)
      as (seen & more & Hcands & Hlog & Hmore).
    rewrite Hrun1 in Hlog, Hmore. simpl in Hlog, Hmore, Hcommitted.
    rewrite all_candidates_pipeline_order in Hcommitted, Hcands.
    destruct Hstep as (Hvec & _ & Hcalls).
    assert (updated_strategies (new1 ++ new2) = seen) as Hseen.
    { rewrite updated_strategies_app, (updated_strategies_check new2 Hnew2), app_nil_r.
      rewrite Hcalls, updated_strategies_app in Hlog. by apply app_inv_head in Hlog. }
    exists done, rest, added, (new1 ++ new2). rewrite Hrun. simpl.
    split; [done|]. split; [by rewrite Hvec, decide_True|].
    split; [by rewrite Hcalls, (assoc_L (++))|].
    split; [by apply computed_costs_assigned|]. split; [done|].
    rewrite Hseen, Hcands. split; [by exists more|].
    intros r ->. destruct res1 as [[]|e]; [|by destruct Hpost].
    split; [by apply Hok|]. by rewrite (Hmore eq_refl), app_nil_r.
Qed.


(** C10. The validity check is called for an operand only when the data of
    the operand is a tensor: every call of the check that
    [register_strategy] records comes from an operand of a strategy of the
    vector whose data is that tensor, and a failure of the validation is the
    failure of such a call.  A strategy whose operands hold no tensor is
    therefore committed unchecked: when no operand in the vector holds a
    tensor and the costs are not computed, the call records no checking
    call and returns, whatever the check would answer. *)
Theorem register_strategy_checks_tensors_only self flag st :
  (∀ spec t,
     Call_check_sharding_spec_validity spec t
       ∈ drop (length (calls st)) (calls (snd (register_strategy G shape_consistency check self flag st))) →
     tensor_operand_of
       (vectors (snd (register_strategy G shape_consistency check self flag st)) (strategies_vector self)) spec t)
  ∧ (∀ e, fst (register_strategy G shape_consistency check self flag st) = Raise e →
       fst (for_each (register_generator G shape_consistency self flag) (get_strategy_generator self) st) = Raise e
       ∨ ∃ spec t,
           tensor_operand_of
             (vectors (snd (register_strategy G shape_consistency check self flag st)) (strategies_vector self)) spec t
           ∧ check spec t = Raise e)
  ∧ ((∀ strategy op spec t,
        strategy ∈ vectors (snd (register_strategy G shape_consistency check self flag st)) (strategies_vector self) →
        (op, spec) ∈ sharding_specs strategy → data op ≠ PyTensor t) →
     flag = false →
     fst (register_strategy G shape_consistency check self flag st) = Ok (strategies_vector self)
     ∧ calls (snd (register_strategy G shape_consistency check self flag st)) = calls st).
Proof.
  destruct (register_strategy_run self flag st)
    as (res1 & done & rest & added & new1 & st1 & res & new2 & Hrun1 & _ & Hstep
        & Hnew1 & Hfalse & _ & _ & Hrun & Hnew2 & Hlog & Hpost).
  rewrite Hrun, Hrun1. simpl. destruct Hstep as (_ & _ & Hcalls).
  rewrite Hcalls, <- (assoc_L (++)), drop_app_length.
  split; [|split].
  - intros spec t Hin. apply elem_of_app in Hin as [Hin|Hin]; [|by apply Hlog].
    rewrite Forall_forall in Hnew1. by destruct (Hnew1 _ Hin).
  - intros e ->. destruct res1 as [[]|e1]; [by right|left].
    by destruct Hpost as [[= ->] _].
  - intros Hnone Hflag. destruct (Hfalse Hflag) as [-> ->].
    assert (new2 = []) as ->.
    { destruct new2 as [|ev new2]; [done|].
      apply Forall_cons in Hnew2 as [Hev _]. destruct ev; try done.
      destruct (Hlog sharding_spec tensor) as (s & op & Hs & Hop & Hdata); [by left|].
      by destruct (Hnone s op sharding_spec tensor). }
    rewrite !app_nil_r. split; [|done].
    destruct res as [r|e]; [by destruct Hpost as [-> _]|].
    destruct Hpost as (spec & t & (s & op & Hs & Hop & Hdata) & _).
    by destruct (Hnone s op spec t).
Qed.
End RegisterTheorems.

(** ** The claims about [update_resharding_cost] *)

Section UpdateTheorems.
Variable G : Graph.
Variable shape_consistency : ShardingSpec → ShardingSpec → ReshardingCost.

Abbreviation specs_of := (predecessor_sharding_specs G).

Lemma first_error_failing strategy st before n after e :
  fst (specs_of strategy n st) = Raise e →
  ∃ e', first_error G strategy st (before ++ n :: after) = Some e'.
Proof.
  intros Hn. induction before as [|m before IH]; simpl.
  - rewrite Hn. by exists e.
  - destruct (fst (specs_of strategy m st)); [done|by eexists].
Qed.

Lemma first_error_first strategy st before n after e :
  (∀ m, m ∈ before → ∃ x, fst (specs_of strategy m st) = Ok x) →
  fst (specs_of strategy n st) = Raise e →
  first_error G strategy st (before ++ n :: after) = Some e.
Proof.
  intros Hbefore Hn. induction before as [|m before IH]; simpl.
  - by rewrite Hn.
  - destruct (Hbefore m) as [x ->]; [by left|].
    apply IH. intros m' Hm'. apply Hbefore. by right.
Qed.

(** C2. For every strategy [S] that [update_resharding_cost] returns and
    every predecessor [P] of the node, [P] has a strategies vector, and
    [S.resharding_costs[P]] is a sequence as long as that vector whose entry
    at index [i] is the cost triple the oracle returns for the layout of
    candidate [i] of [P] and the layout of [S], both for the operand named
    after [P]. *)
Theorem update_resharding_cost_alignment self strategy st S st' :
  update_resharding_cost G shape_consistency self strategy st = (Ok S, st') →
  ∀ P, P ∈ predecessor_node self →
    ∃ vec current rc costs,
      node_strategies_vector st P = Some vec
      ∧ (∃ op_data, get_op_data_by_name strategy (str G P) = Ok op_data
                    ∧ sharding_specs_getitem strategy op_data = Ok current)
      ∧ resharding_costs S = Some rc
      ∧ dict_get (KNode P) rc = Some costs
      ∧ length costs = length (vectors st vec)
      ∧ ∀ i prev_strategy, vectors st vec !! i = Some prev_strategy →
          ∃ prev_layout,
            get_sharding_spec_by_name prev_strategy (str G P) = Ok prev_layout
            ∧ costs !! i
              = Some {| fwd := cost_forward (shape_consistency prev_layout current);
                        bwd := cost_backward (shape_consistency prev_layout current);
                        total := cost_total (shape_consistency prev_layout current) |}.
Proof.
  intros Hrun P HP.
  destruct (update_resharding_cost_run G shape_consistency self strategy st)
    as (res & new & _ & _ & Hpost & Hrun').
  rewrite Hrun in Hrun'. destruct res as [rc|e]; [|done].
  injection Hrun' as -> _.
  destruct Hpost as (_ & _ & Hpreds & _ & _).
  destruct (Hpreds P HP) as (prevs & op & cur & Hspecs & Hget).
  apply predecessor_sharding_specs_Ok in Hspecs as (vec & Hvec & Hmap & Hop & Hcur).
  apply exc_map_Ok in Hmap as [Hlen Hall].
  exists vec, cur, rc, (map (λ prev, to_item (shape_consistency prev cur)) prevs).
  split; [done|]. split; [by exists op|]. split; [done|]. split; [done|].
  split; [by rewrite length_map|].
  intros i prev_strategy Hi. destruct (Hall i prev_strategy Hi) as (prev & Hprev & Hi').
  exists prev. split; [done|]. by rewrite list_lookup_fmap, Hi'.
Qed.

(** A predecessor without a strategies vector makes the method raise. *)
Lemma update_without_vector self strategy st before P after :
  predecessor_node self = before ++ P :: after →
  node_strategies_vector st P = None →
  (∃ e, fst (update_resharding_cost G shape_consistency self strategy st) = Raise e)
  ∧ ((∀ Q, Q ∈ before → ∃ x, fst (specs_of strategy Q st) = Ok x) →
     fst (update_resharding_cost G shape_consistency self strategy st) = Raise (no_strategy_vector G P)).
Proof.
  intros Hpreds Hnone.
  pose proof (predecessor_sharding_specs_no_vector G strategy P st Hnone) as HP.
  destruct (update_resharding_cost_run G shape_consistency self strategy st)
    as (res & new & _ & _ & Hpost & ->).
  simpl. rewrite Hpreds in Hpost. unfold loop_post in Hpost. split.
  - destruct (first_error_failing strategy st before P after _ HP) as [e' He'].
    destruct res as [rc|e]; [|by exists e].
    destruct Hpost as (Hfirst & _). congruence.
  - intros Hbefore.
    pose proof (first_error_first strategy st before P after _ Hbefore HP) as Hfirst.
    destruct res as [rc|e]; [destruct Hpost; congruence|congruence].
Qed.

(** C6. Every item that [update_resharding_cost] stores in the
    [resharding_costs] of the strategy it returns carries the forward, the
    backward and the total value of a cost dictionary that the oracle
    returned during the call, each unchanged: the total is the one of the
    oracle, whatever its relation to the two other values. *)
Theorem update_resharding_cost_verbatim self strategy st S st' :
  update_resharding_cost G shape_consistency self strategy st = (Ok S, st') →
  ∃ rc new,
    resharding_costs S = Some rc
    ∧ calls st' = calls st ++ new
    ∧ ∀ k costs it, (k, costs) ∈ rc → it ∈ costs →
        ∃ prev_layout current,
          Call_shape_consistency prev_layout current ∈ new
          ∧ fwd it = cost_forward (shape_consistency prev_layout current)
          ∧ bwd it = cost_backward (shape_consistency prev_layout current)
          ∧ total it = cost_total (shape_consistency prev_layout current).
Proof.
  intros Hrun.
  destruct (update_resharding_cost_run G shape_consistency self strategy st)
    as (res & new & _ & _ & Hpost & Hrun').
  rewrite Hrun in Hrun'. destruct res as [rc|e]; [|done].
  injection Hrun' as -> ->.
  exists rc, (Call_update_resharding_cost strategy :: new).
  split; [done|]. split; [done|].
  destruct Hpost as (_ & _ & _ & _ & Hitems).
  intros k costs it Hin Hit. destruct (Hitems k costs Hin) as [Hnil|Hfrom].
  { by apply elem_of_nil in Hnil. }
  rewrite Forall_forall in Hfrom.
  destruct (Hfrom it Hit) as (prev & cur & Hcall & ->).
  exists prev, cur. split; [by right|done].
Qed.
End UpdateTheorems.


Section Ordering.
Variable G : Graph.
Variable shape_consistency : ShardingSpec → ShardingSpec → ReshardingCost.
Variable check : ShardingSpec → Tensor → Exc unit.
Context {cls : NodeHandlerClass}.

(** C3, as the code has it.  When a predecessor [P] of the node has no
    strategies vector, [update_resharding_cost] never returns a strategy: it
    raises.  The error is the failed assertion whose message names [P] when
    [P] is the first predecessor, in order, to lack the vector and the
    layouts of the predecessors before it can be read.
    [register_strategy] with the flag set calls the method for every
    candidate, and so returns only when its generators yield no candidate
    at all. *)
Theorem update_resharding_cost_ordering self strategy st before P after :
  predecessor_node self = before ++ P :: after →
  node_strategies_vector st P = None →
  (∃ e, fst (update_resharding_cost G shape_consistency self strategy st) = Raise e)
  ∧ ((∀ Q, Q ∈ before →
        ∃ x, fst (predecessor_sharding_specs G strategy Q st) = Ok x) →
     fst (update_resharding_cost G shape_consistency self strategy st)
     = Raise (no_strategy_vector G P))
  ∧ (∀ r, fst (register_strategy G shape_consistency check self true st) = Ok r →
       all_candidates self (get_strategy_generator self) = []).
Proof.
  intros Hpreds Hnone.
  destruct (update_without_vector G shape_consistency self strategy st before P after
              Hpreds Hnone) as [Hraise Hfirst].
  split; [done|]. split; [done|]. intros r Hok.
  destruct (register_strategy_run G shape_consistency check self true st)
    as (res1 & done & rest & added & new1 & st1 & res & new2 & _ & Hsplit & _ & _ & _
        & Hrest & Hcommitted & Hrun & _ & _ & Hpost).
  rewrite Hrun in Hok. simpl in Hok. subst res.
  destruct res1 as [[]|e]; [|by destruct Hpost].
  rewrite (Hrest eq_refl), app_nil_r in Hsplit. subst done.
  destruct Hcommitted as [Hlen Hall].
  destruct added as [|s' added]; [by destruct (all_candidates _ _)|].
  destruct (Hall 0%nat s' eq_refl)
    as (c & earlier & new & sta & stb & _ & (_ & Hattr & _) & _ & Hupdate).
  destruct (update_without_vector G shape_consistency self c sta before P after Hpreds)
    as [[e He] _]; [by rewrite Hattr|].
  rewrite Hupdate in He. done.
Qed.
End Ordering.

(** ** [ModuleHandler.__init__] *)

Lemma walk_submodules_Ok root atoms m :
  walk_submodules root atoms = Ok m ↔ submodule_at root atoms m.
Proof.
  split.
  - revert root. induction atoms as [|item atoms IH]; simpl; intros root Hwalk.
    + injection Hwalk as ->. constructor.
    + case_decide as Hattr; [done|].
      destruct (dict_get item (_parameters root)) eqn:Hp; [done|].
      destruct (dict_get item (_buffers root)) eqn:Hb; [done|].
      destruct (dict_get item (_modules root)) as [[child|]|] eqn:Hm; [|done|done].
      eapply submodule_child; [by repeat split|]. by apply IH.
  - induction 1 as [|root item child atoms m (Hattr & Hp & Hb & Hm) _ IH]; simpl; [done|].
    rewrite decide_False by done. by rewrite Hp, Hb, Hm.
Qed.

Lemma walk_submodules_Raise root atoms e :
  walk_submodules root atoms = Raise e → ∃ msg, e = AttributeError msg.
Proof.
  revert root. induction atoms as [|item atoms IH]; simpl; intros root Hwalk; [done|].
  case_decide; [injection Hwalk as <-; by eexists|].
  destruct (dict_get item (_parameters root)); [injection Hwalk as <-; by eexists|].
  destruct (dict_get item (_buffers root)); [injection Hwalk as <-; by eexists|].
  destruct (dict_get item (_modules root)) as [[child|]|]; [by eapply IH| |];
    injection Hwalk as <-; by eexists.
Qed.

(** [str.split(".")] and [".".join] are inverse to each other on lists of
    names without a dot. *)
Lemma split_dot_nonempty s : split_dot s ≠ [].
Proof.
  induction s as [|c s IH]; simpl; [done|].
  destruct (Ascii.eqb c "."); [done|]. by destruct (split_dot s).
Qed.

Lemma split_dot_atom atom : dot_free atom → split_dot atom = [atom].
Proof.
  induction atom as [|c atom IH]; simpl; [done|]. intros [Hc Hfree].
  apply Ascii.eqb_neq in Hc. rewrite Hc. by rewrite IH.
Qed.

Lemma split_dot_app atom rest :
  dot_free atom → split_dot (atom +:+ "." +:+ rest) = atom :: split_dot rest.
Proof.
  induction atom as [|c atom IH]; simpl; [done|]. intros [Hc Hfree].
  apply Ascii.eqb_neq in Hc. rewrite Hc. by rewrite IH.
Qed.

Lemma split_dot_concat atoms :
  atoms ≠ [] → Forall dot_free atoms → split_dot (String.concat "." atoms) = atoms.
Proof.
  induction atoms as [|atom atoms IH]; [done|]. intros _ Hfree.
  apply Forall_cons in Hfree as [Hatom Hfree]. destruct atoms as [|atom' atoms].
  - by apply split_dot_atom.
  - change (String.concat "." (atom :: atom' :: atoms))
      with (atom +:+ "." +:+ String.concat "." (atom' :: atoms)).
    rewrite split_dot_app by done. f_equal. by apply IH.
Qed.

Lemma split_dot_dot_free s : Forall dot_free (split_dot s).
Proof.
  induction s as [|c s IH]; simpl; [by repeat constructor|].
  destruct (Ascii.eqb c ".") eqn:Hc; [by constructor|].
  apply Ascii.eqb_neq in Hc.
  destruct (split_dot s) as [|atom atoms]; [by repeat constructor|].
  apply Forall_cons in IH as [Hatom Hatoms]. by constructor.
Qed.

Lemma concat_split_dot s : String.concat "." (split_dot s) = s.
Proof.
  induction s as [|c s IH]; simpl; [done|].
  pose proof (split_dot_nonempty s) as Hne.
  destruct (Ascii.eqb c ".") eqn:Hc.
  - apply Ascii.eqb_eq in Hc as ->.
    destruct (split_dot s) as [|atom atoms]; [done|].
    change (String.concat "." ("" :: atom :: atoms))
      with (String "." (String.concat "." (atom :: atoms))).
    by rewrite IH.
  - destruct (split_dot s) as [|atom [|atom' atoms]]; [done| |].
    + simpl in *. by rewrite IH.
    + change (String.concat "." (String c atom :: atom' :: atoms))
        with (String c (String.concat "." (atom :: atom' :: atoms))).
      by rewrite IH.
Qed.

Lemma get_submodule_Ok root target m :
  get_submodule root target = Ok m ↔ resolves_to root target m.
Proof.
  unfold get_submodule, resolves_to. destruct (decide (target = "")) as [->|Hne].
  - split; [intros [= ->]; by left|]. by intros [[_ ->]|[? _]].
  - rewrite walk_submodules_Ok. split.
    + intros Hat. right. split; [done|]. exists (split_dot target).
      split; [by rewrite concat_split_dot|]. split; [apply split_dot_dot_free|done].
    + intros [[? _]|[_ (atoms & -> & Hfree & Hat)]]; [done|].
      rewrite split_dot_concat; [done| |done]. by intros ->.
Qed.

(** What [_named_members] yields: the entries that hold an object, no object
    of [memo], and every object under the first of its names only. *)
Lemma _named_members_elem memo members k p :
  (k, p) ∈ _named_members memo members ↔
  ∃ i, members !! i = Some (k, Some p)
       ∧ (object_id p ∉ memo)
       ∧ ∀ j k' p', (j < i)%nat → members !! j = Some (k', Some p') →
           object_id p' ≠ object_id p.
Proof.
  revert memo. induction members as [|[k0 [v|]] members IH]; intros memo; simpl.
  - split; [by intros ?%elem_of_nil|]. by intros (i & ? & _).
  - destruct (decide (object_id v ∈ memo)) as [Hseen|Hnew].
    + rewrite IH. split.
      * intros (i & Hi & Hmemo & Hfirst). exists (S i). split; [done|]. split; [done|].
        intros [|j] k' p' Hlt Hj; simpl in Hj.
        -- injection Hj as _ ->. by intros Heq; rewrite Heq in Hseen.
        -- eapply Hfirst; [|done]. lia.
      * intros ([|i] & Hi & Hmemo & Hfirst); simpl in Hi.
        -- injection Hi as _ ->. done.
        -- exists i. split; [done|]. split; [done|].
           intros j k' p' Hlt Hj. apply (Hfirst (S j) k' p'); [lia|done].
    + rewrite elem_of_cons, IH. split.
      * intros [[= -> ->]|(i & Hi & Hmemo & Hfirst)].
        -- exists 0%nat. split; [done|]. split; [done|]. intros; lia.
        -- apply not_elem_of_cons in Hmemo as [Hne Hmemo].
           exists (S i). split; [done|]. split; [done|].
           intros [|j] k' p' Hlt Hj; simpl in Hj.
           ++ injection Hj as _ ->. done.
           ++ eapply Hfirst; [|done]. lia.
      * intros ([|i] & Hi & Hmemo & Hfirst); simpl in Hi.
        -- injection Hi as -> ->. by left.
        -- right. exists i. split; [done|]. split.
           ++ apply not_elem_of_cons. split; [|done].
              intros Heq. by apply (Hfirst 0%nat k0 v); [lia|done|].
           ++ intros j k' p' Hlt Hj. apply (Hfirst (S j) k' p'); [lia|done].
  - rewrite IH. split.
    + intros (i & Hi & Hmemo & Hfirst). exists (S i). split; [done|]. split; [done|].
      intros [|j] k' p' Hlt Hj; simpl in Hj; [done|]. eapply Hfirst; [|done]. lia.
    + intros ([|i] & Hi & Hmemo & Hfirst); simpl in Hi; [done|].
      exists i. split; [done|]. split; [done|].
      intros j k' p' Hlt Hj. apply (Hfirst (S j) k' p'); [lia|done].
Qed.

Lemma named_members_first_registration members k p :
  (k, p) ∈ _named_members [] members ↔ first_registration members k p.
Proof.
  rewrite _named_members_elem. unfold first_registration.
  split; intros (i & Hi & H); exists i; split; try done.
  - by destruct H.
  - split; [apply not_elem_of_nil|done].
Qed.

Lemma _named_members_names memo members :
  map fst (_named_members memo members) `sublist_of` map fst members.
Proof.
  revert memo. induction members as [|[k0 [v|]] members IH]; intros memo; simpl.
  - done.
  - case_decide; [by apply sublist_cons|]. simpl. by apply sublist_skip.
  - by apply sublist_cons.
Qed.

Lemma dict_of_pairs_lookup pairs k :
  dict_of_pairs pairs !! k = dict_get k (reverse pairs).
Proof.
  unfold dict_of_pairs. induction pairs as [|[k' t] pairs IH] using rev_ind; [done|].
  rewrite foldl_app, reverse_app. simpl.
  rewrite lookup_insert. by destruct (decide (k' = k)).
Qed.

Lemma dict_of_pairs_elem pairs k t :
  dict_of_pairs pairs !! k = Some t → (k, t) ∈ pairs.
Proof.
  rewrite dict_of_pairs_lookup. intros Hget.
  apply dict_get_Some_elem in Hget. by rewrite elem_of_reverse in Hget.
Qed.

Lemma dict_of_pairs_dom pairs k :
  is_Some (dict_of_pairs pairs !! k) ↔ k ∈ map fst pairs.
Proof.
  rewrite dict_of_pairs_lookup. split.
  - intros [t Hget]. apply dict_get_Some_elem in Hget.
    rewrite elem_of_reverse in Hget. apply list_elem_of_fmap. by exists (k, t).
  - intros Hin. destruct (dict_get k (reverse pairs)) eqn:Hget; [done|].
    exfalso. revert Hget. clear -Hin.
    assert (k ∈ map fst (reverse pairs)) as Hrev.
    { apply list_elem_of_fmap in Hin as ([k' t] & -> & Hin).
      apply list_elem_of_fmap. exists (k', t). split; [done|]. by rewrite elem_of_reverse. }
    clear Hin. induction (reverse pairs) as [|[k1 t1] l IH]; simpl in *.
    + by apply elem_of_nil in Hrev.
    + destruct (decide (k1 = k)); [done|].
      apply elem_of_cons in Hrev as [->|Hrev]; [done|]. by apply IH.
Qed.

Lemma dict_of_members_first members k p :
  dict_of_pairs (_named_members [] members) !! k = Some p →
  first_registration members k p.
Proof. intros Hget. by apply named_members_first_registration, dict_of_pairs_elem. Qed.

Lemma dict_of_members_dom members k :
  is_Some (dict_of_pairs (_named_members [] members) !! k)
  ↔ ∃ p, first_registration members k p.
Proof.
  rewrite dict_of_pairs_dom. split.
  - intros ([k' p] & -> & Hin)%list_elem_of_fmap. exists p.
    by apply named_members_first_registration.
  - intros [p Hin%named_members_first_registration].
    apply list_elem_of_fmap. by exists (k, p).
Qed.

(** C7. Constructing a [ModuleHandler] fails, instead of going on, when the
    graph has no owning module (the assertion of line 160) and when the target
    of the node does not resolve to a submodule of the owning module (the
    error of [get_submodule]).  When the construction succeeds, the handler
    holds the module the target resolves to, and its maps are those that
    [named_parameters(recurse=False)] and [named_buffers(recurse=False)]
    give for this module: a name is mapped to the tensor registered under
    it, and the names in the map are those under which a tensor is
    registered that is registered under no earlier name; a name registered
    with [None], and the later names of a tensor registered twice, are not in
    the map. *)
Theorem ModuleHandler_init_resolves G node device_mesh strategies_vector :
  (owning_module G = None →
   ∃ msg, ModuleHandler__init__ G node device_mesh strategies_vector
          = Raise (AssertionError msg))
  ∧ (∀ root, owning_module G = Some root →
       (∀ m, ¬ resolves_to root (target (nodes G node)) m) →
       ∃ msg, ModuleHandler__init__ G node device_mesh strategies_vector
              = Raise (AttributeError msg))
  ∧ (∀ mh, ModuleHandler__init__ G node device_mesh strategies_vector = Ok mh →
       ∃ root,
         owning_module G = Some root
         ∧ resolves_to root (target (nodes G node)) (module mh)
         ∧ handler mh = NodeHandler__init__ G node device_mesh strategies_vector
         ∧ (∀ k p, named_parameters mh !! k = Some p →
              first_registration (_parameters (module mh)) k p)
         ∧ (∀ k, is_Some (named_parameters mh !! k)
              ↔ ∃ p, first_registration (_parameters (module mh)) k p)
         ∧ (∀ k p, named_buffers mh !! k = Some p →
              first_registration (_buffers (module mh)) k p)
         ∧ (∀ k, is_Some (named_buffers mh !! k)
              ↔ ∃ p, first_registration (_buffers (module mh)) k p)).
Proof.
  unfold ModuleHandler__init__. split; [|split].
  - intros ->. by eexists.
  - intros root -> Hunresolved.
    destruct (get_submodule root (target (nodes G node))) as [m|e] eqn:Hsub.
    { apply get_submodule_Ok in Hsub. by destruct (Hunresolved m). }
    simpl. unfold get_submodule in Hsub. case_decide; [done|].
    apply walk_submodules_Raise in Hsub as [msg ->]. by exists msg.
  - intros mh Hinit. destruct (owning_module G) as [root|]; [|done].
    destruct (get_submodule root (target (nodes G node))) as [m|e] eqn:Hsub; [|done].
    simpl in Hinit. injection Hinit as <-. simpl. exists root.
    split; [done|]. split; [by apply get_submodule_Ok|]. split; [done|].
    unfold named_parameters_of, named_buffers_of.
    split; [apply dict_of_members_first|]. split; [apply dict_of_members_dom|].
    split; [apply dict_of_members_first|apply dict_of_members_dom].
Qed.

(** ** The claims on the scenario *)

Section OnTheScenario.
Import Scenario.

Abbreviation run_b flag :=
  (register_strategy (cls := class_b) graph oracle layout_rule handler_b flag store).
Abbreviation run_3x8 :=
  (register_strategy (cls := class_3x8) graph oracle layout_rule handler_x false store).
Abbreviation run_without_tensor :=
  (register_strategy (cls := class_without_tensor) graph oracle layout_rule
                     handler_x false store).

(** The chain [a -> b]: the strategy of [b] gets one cost per candidate of
    [a], in the order of the vector of [a]. *)
Lemma update_resharding_cost_alignment_witness :
  update_resharding_cost graph oracle handler_b (strategy_b replicated) store
  = (Ok updated_b, add_calls store calls_b)
  ∧ ∃ vec current rc costs,
      node_strategies_vector store a = Some vec
      ∧ (∃ op_data, get_op_data_by_name (strategy_b replicated) (str graph a) = Ok op_data
                    ∧ sharding_specs_getitem (strategy_b replicated) op_data = Ok current)
      ∧ resharding_costs updated_b = Some rc
      ∧ dict_get (KNode a) rc = Some costs
      ∧ length costs = length (vectors store vec)
      ∧ ∀ i prev_strategy, vectors store vec !! i = Some prev_strategy →
          ∃ prev_layout,
            get_sharding_spec_by_name prev_strategy (str graph a) = Ok prev_layout
            ∧ costs !! i
              = Some {| fwd := cost_forward (oracle prev_layout current);
                        bwd := cost_backward (oracle prev_layout current);
                        total := cost_total (oracle prev_layout current) |}.
Proof.
  assert (update_resharding_cost graph oracle handler_b (strategy_b replicated) store
          = (Ok updated_b, add_calls store calls_b)) as Hrun by reflexivity.
  split; [exact Hrun|].
  apply (update_resharding_cost_alignment graph oracle handler_b
           (strategy_b replicated) store updated_b (add_calls store calls_b) Hrun a).
  apply list_elem_of_here.
Defined.

(** Node [c]: its first predecessor [p0] has no vector. *)
Lemma update_resharding_cost_ordering_witness :
  predecessor_node handler_c = [] ++ p0 :: [p1]
  ∧ node_strategies_vector store p0 = None
  ∧ fst (update_resharding_cost graph oracle handler_c (strategy_b replicated) store)
    = Raise (no_strategy_vector graph p0).
Proof.
  split; [reflexivity|]. split; [reflexivity|].
  apply (update_resharding_cost_ordering (cls := class_b) graph oracle layout_rule
           handler_c (strategy_b replicated) store [] p0 [p1] eq_refl eq_refl).
  intros Q HQ. by apply elem_of_nil in HQ.
Defined.

(** Node [c] again: [p1] is a predecessor without a vector as well, and the
    error names [p0], not [p1]. *)
Lemma update_resharding_cost_ordering_counterexample :
  ¬ (∀ P, P ∈ predecessor_node handler_c →
          node_strategies_vector store P = None →
          fst (update_resharding_cost graph oracle handler_c (strategy_b replicated) store)
          = Raise (no_strategy_vector graph P)).
Proof.
  intros Hclaim. specialize (Hclaim p1).
  assert (p1 ∈ predecessor_node handler_c) as Hin.
  { apply list_elem_of_further, list_elem_of_here. }
  specialize (Hclaim Hin eq_refl). vm_compute in Hclaim. discriminate Hclaim.
Qed.

(** Node [c] under a handler class without generators: no candidate, no
    computation of costs, and the call returns although [p0] and [p1] have no
    vector. *)
Example register_strategy_without_candidates :
  fst (register_strategy (cls := class_idle) graph oracle layout_rule handler_c true store)
  = Ok vector_c.
Proof. reflexivity. Qed.

Lemma update_resharding_cost_verbatim_witness :
  update_resharding_cost graph oracle handler_b (strategy_b replicated) store
  = (Ok updated_b, add_calls store calls_b)
  ∧ ∃ rc new,
      resharding_costs updated_b = Some rc
      ∧ calls (add_calls store calls_b) = calls store ++ new
      ∧ ∀ k costs it, (k, costs) ∈ rc → it ∈ costs →
          ∃ prev_layout current,
            Call_shape_consistency prev_layout current ∈ new
            ∧ fwd it = cost_forward (oracle prev_layout current)
            ∧ bwd it = cost_backward (oracle prev_layout current)
            ∧ total it = cost_total (oracle prev_layout current).
Proof.
  assert (update_resharding_cost graph oracle handler_b (strategy_b replicated) store
          = (Ok updated_b, add_calls store calls_b)) as Hrun by reflexivity.
  split; [exact Hrun|].
  exact (update_resharding_cost_verbatim graph oracle handler_b
           (strategy_b replicated) store updated_b (add_calls store calls_b) Hrun).
Defined.




Lemma register_strategy_append_only_witness :
  fst (run_b true) = Ok vector_b
  ∧ ∃ added, ∀ r,
      vectors (snd (run_b true)) r
      = if decide (r = strategies_vector handler_b) then vectors store r ++ added
        else vectors store r.
Proof.
  split; [reflexivity|].
  exact (proj1 (register_strategy_append_only (cls := class_b) graph oracle layout_rule
                  handler_b true store)).
Defined.

(** Node [b] with and without the costs.  Without, no strategy of the vector
    has its [resharding_costs] assigned and the log has no entry into
    [update_resharding_cost]; with the costs, each of the four strategies
    has one cost per candidate of [a], and the log has one entry per
    candidate, in the order of the pipeline. *)
Lemma register_strategy_flag_witness :
  map resharding_costs (vectors (snd (run_b false)) vector_b) = [None; None; None; None]
  ∧ updated_strategies (calls (snd (run_b false))) = []
  ∧ map resharding_costs (vectors (snd (run_b true)) vector_b)
    = [Some [(KNode a, [mkTrainCycleItem 0 0 0; mkTrainCycleItem 3 4 100])];
       Some [(KNode a, [mkTrainCycleItem 3 4 100; mkTrainCycleItem 3 4 100])];
       Some [(KNode a, [mkTrainCycleItem 0 0 0; mkTrainCycleItem 3 4 100])];
       Some [(KNode a, [mkTrainCycleItem 3 4 100; mkTrainCycleItem 0 0 0])]]
  ∧ updated_strategies (calls (snd (run_b true)))
    = [strategy_b shard_dim0; strategy_b replicated; strategy_b shard_dim0;
       strategy_b shard_dim1]
  ∧ (∃ new,
        calls (snd (run_b false)) = calls store ++ new
        ∧ Forall is_check_call new
        ∧ vectors (snd (run_b false)) (strategies_vector handler_b)
          = vectors store (strategies_vector handler_b)
            ++ @pipeline_order class_b handler_b (@get_strategy_generator class_b handler_b))
  ∧ (∃ done rest added new,
        @get_strategy_generator class_b handler_b = done ++ rest
        ∧ vectors (snd (run_b true)) (strategies_vector handler_b)
          = vectors store (strategies_vector handler_b) ++ added
        ∧ calls (snd (run_b true)) = calls store ++ new
        ∧ costs_assigned graph oracle handler_b store
            (@pipeline_order class_b handler_b done) added
        ∧ computed graph oracle handler_b store
            (@pipeline_order class_b handler_b done) added
        ∧ updated_strategies new
          `prefix_of` @pipeline_order class_b handler_b
                        (@get_strategy_generator class_b handler_b)
        ∧ (∀ r, fst (run_b true) = Ok r →
             rest = []
             ∧ updated_strategies new
               = @pipeline_order class_b handler_b
                   (@get_strategy_generator class_b handler_b))).
Proof.
  split; [reflexivity|]. split; [reflexivity|]. split; [reflexivity|].
  split; [reflexivity|].
  exact (register_strategy_flag (cls := class_b) graph oracle layout_rule
           handler_b store).
Defined.



(** A candidate whose operands hold [None] and an integer, with a layout
    that no tensor could have: it is committed, and the check is not
    called. *)
Lemma register_strategy_checks_tensors_only_witness :
  layout_valid bad_layout tensor_8x8 = false
  ∧ vectors (snd run_without_tensor) (strategies_vector handler_x)
    = [strategy_without_tensor]
  ∧ fst run_without_tensor = Ok (strategies_vector handler_x)
  ∧ calls (snd run_without_tensor) = calls store.
Proof.
  split; [reflexivity|]. split; [reflexivity|].
  apply (proj2 (proj2 (register_strategy_checks_tensors_only
                         (cls := class_without_tensor) graph oracle layout_rule
                         handler_x false store))); [|reflexivity].
  intros strategy op spec t Hin Hop.
  change (strategy ∈ [strategy_without_tensor]) in Hin.
  apply list_elem_of_singleton in Hin as ->.
  apply elem_of_cons in Hop as [[= -> ->]|Hop]; [done|].
  apply list_elem_of_singleton in Hop as [= -> ->]. done.
Defined.

(** Node [b] is bound to the linear layer of the owning module. *)
Lemma ModuleHandler_init_resolves_witness :
  ∃ mh,
    ModuleHandler__init__ graph b mesh vector_b = Ok mh
    ∧ module mh = linear
    ∧ named_parameters mh !! "weight" = Some linear_weight
    ∧ named_parameters mh !! "bias" = Some linear_bias
    ∧ ∃ root,
        owning_module graph = Some root
        ∧ resolves_to root (target (nodes graph b)) (module mh)
        ∧ handler mh = NodeHandler__init__ graph b mesh vector_b
        ∧ (∀ k p, named_parameters mh !! k = Some p →
             first_registration (_parameters (module mh)) k p)
        ∧ (∀ k, is_Some (named_parameters mh !! k)
             ↔ ∃ p, first_registration (_parameters (module mh)) k p)
        ∧ (∀ k p, named_buffers mh !! k = Some p →
             first_registration (_buffers (module mh)) k p)
        ∧ (∀ k, is_Some (named_buffers mh !! k)
             ↔ ∃ p, first_registration (_buffers (module mh)) k p).
Proof.
  eexists. split; [reflexivity|]. split; [reflexivity|]. split; [reflexivity|].
  split; [reflexivity|].
  apply (proj2 (proj2 (ModuleHandler_init_resolves graph b mesh vector_b))).
  reflexivity.
Defined.

(** The convolution of node [c] was built without a bias: the name is
    registered with [None], and is not in the map. *)
Example ModuleHandler_init_without_bias :
  (λ mh, (named_parameters mh !! "weight", named_parameters mh !! "bias"))
    <$> (match ModuleHandler__init__ graph c mesh vector_c with
         | Ok mh => Some mh
         | Raise _ => None
         end) = Some (Some conv_weight, None).
Proof. reflexivity. Qed.

(** Targets that do not resolve: a name registered with [None], a method,
    and a name the module does not have. *)
Example ModuleHandler_init_removed_target :
  ModuleHandler__init__ TiedScenario.graph TiedScenario.u mesh TiedScenario.vector_t
  = Raise (AttributeError "`removed` is not an nn.Module").
Proof. reflexivity. Qed.

Example ModuleHandler_init_method_target :
  ModuleHandler__init__ TiedScenario.graph TiedScenario.v mesh TiedScenario.vector_t
  = Raise (AttributeError "`forward` is not an nn.Module").
Proof. reflexivity. Qed.

Example ModuleHandler_init_missing_target :
  ModuleHandler__init__ TiedScenario.graph TiedScenario.w mesh TiedScenario.vector_t
  = Raise (AttributeError "Tied has no attribute `missing`").
Proof. reflexivity. Qed.

(** Without an owning module, and with a target that names a parameter, the
    construction raises. *)
Example ModuleHandler_init_without_module :
  ModuleHandler__init__ graph_without_module b mesh vector_b
  = Raise (AssertionError "The graph is not associated with a module, please make sure it can be used to instantiate a GraphModule object.").
Proof. reflexivity. Qed.

Example ModuleHandler_init_parameter_target :
  ModuleHandler__init__ graph d mesh vector_b
  = Raise (AttributeError "`weight` is not an nn.Module").
Proof. reflexivity. Qed.

Example ModuleHandler_init_nested_target :
  module <$> (match ModuleHandler__init__ graph c mesh vector_c with
              | Ok mh => Some mh
              | Raise _ => None
              end) = Some conv.
Proof. reflexivity. Qed.
End OnTheScenario.

(** * Further properties *)

(** ** More on [update_resharding_cost] *)

Lemma dict_set_keys_fresh {K V} `{EqDecision K} (k : K) (v : V) d :
  k ∉ map fst d → map fst (dict_set k v d) = map fst d ++ [k].
Proof.
  induction d as [|[k1 v1] d IH]; simpl; [done|].
  intros Hnin. apply not_elem_of_cons in Hnin as [Hne Hnin].
  rewrite decide_False by done. simpl. by rewrite IH.
Qed.

Lemma get_sharding_spec_by_name_in_Raise specs n e :
  get_sharding_spec_by_name_in specs n = Raise e → ∃ msg, e = KeyError msg.
Proof.
  induction specs as [|[op spec] specs IH]; simpl.
  - intros [= <-]. by eexists.
  - by case_decide.
Qed.

Lemma get_op_data_by_name_in_Raise specs n e :
  get_op_data_by_name_in specs n = Raise e → ∃ msg, e = KeyError msg.
Proof.
  induction specs as [|[op spec] specs IH]; simpl.
  - intros [= <-]. by eexists.
  - by case_decide.
Qed.

Lemma exc_map_Raise {A B} (f : A → Exc B) (l : list A) e :
  exc_map f l = Raise e → ∃ a, a ∈ l ∧ f a = Raise e.
Proof.
  induction l as [|a l IH]; simpl; [done|].
  destruct (f a) as [b|e'] eqn:Hfa; simpl.
  - destruct (exc_map f l) as [bs|e'] eqn:Hmap; simpl; [done|].
    intros [= ->]. destruct (IH eq_refl) as (a' & Hin & Ha').
    exists a'. split; [by right|done].
  - intros [= ->]. exists a. split; [by left|done].
Qed.

Section MoreUpdate.
Variable G : Graph.
Variable shape_consistency : ShardingSpec → ShardingSpec → ReshardingCost.

Abbreviation specs_of := (predecessor_sharding_specs G).
Abbreviation costs_of strategy :=
  (predecessor_resharding_costs G shape_consistency strategy).

(** What is read depends on the store through the vectors and the node
    attributes only, and on the strategy through its [sharding_specs] only. *)
Lemma predecessor_sharding_specs_reads strategy n st1 st2 :
  vectors st1 = vectors st2 →
  node_strategies_vector st1 = node_strategies_vector st2 →
  fst (specs_of strategy n st1) = fst (specs_of strategy n st2).
Proof.
  intros Hvec Hattr.
  unfold predecessor_sharding_specs, bind, get_state, lift, raise, ret.
  rewrite Hattr, Hvec.
  destruct (node_strategies_vector st2 n); [|done].
  destruct (exc_map _ _); [|done].
  destruct (get_op_data_by_name _ _); [|done].
  by destruct (sharding_specs_getitem _ _).
Qed.

Lemma predecessor_sharding_specs_strategy strategy1 strategy2 n st :
  sharding_specs strategy1 = sharding_specs strategy2 →
  specs_of strategy1 n st = specs_of strategy2 n st.
Proof.
  intros Hspecs.
  unfold predecessor_sharding_specs, get_op_data_by_name, sharding_specs_getitem.
  by rewrite Hspecs.
Qed.

Lemma oracle_calls_for_add_calls strategy st new P :
  oracle_calls_for G strategy (add_calls st new) P = oracle_calls_for G strategy st P.
Proof.
  unfold oracle_calls_for. by rewrite predecessor_sharding_specs_add_calls.
Qed.

(** An assertion that fails while the layouts are read is the one of line 55. *)
Lemma predecessor_sharding_specs_assertion strategy n st msg :
  fst (specs_of strategy n st) = Raise (AssertionError msg) →
  node_strategies_vector st n = None ∧ AssertionError msg = no_strategy_vector G n.
Proof.
  unfold predecessor_sharding_specs, bind, get_state, lift, raise, ret.
  destruct (node_strategies_vector st n) as [vec|]; [|by intros [= <-]].
  destruct (exc_map _ _) as [prevs|e] eqn:Hprevs.
  - destruct (get_op_data_by_name _ _) as [op|e] eqn:Hop.
    + unfold sharding_specs_getitem. by destruct (dict_get _ _).
    + simpl. intros [= ->].
      by apply get_op_data_by_name_in_Raise in Hop as [? ?].
  - simpl. intros [= ->]. apply exc_map_Raise in Hprevs as (a & _ & Ha).
    by apply get_sharding_spec_by_name_in_Raise in Ha as [? ?].
Qed.

(** The loop over the predecessors, with the calls it records: those of the
    predecessors before the first whose layouts cannot be read. *)
Lemma predecessors_loop_exact strategy : ∀ l rc st,
  nodes_only rc →
  ∃ before rest res,
    l = before ++ rest
    ∧ (∀ Q, Q ∈ before → ∃ x, fst (specs_of strategy Q st) = Ok x)
    ∧ for_fold (costs_of strategy) l rc st
      = (res, add_calls st (flat_map (oracle_calls_for G strategy st) before))
    ∧ match res with
      | Ok _ => rest = []
      | Raise e => ∃ P after, rest = P :: after
                             ∧ fst (specs_of strategy P st) = Raise e
      end.
Proof.
  induction l as [|n l IH]; intros rc st Hrc.
  - exists [], [], (Ok rc). simpl. rewrite add_calls_nil.
    split; [done|]. split; [|done]. intros Q HQ. by apply elem_of_nil in HQ.
  - cbn [for_fold]. unfold bind at 1.
    destruct (fst (specs_of strategy n st)) as [[[prevs op] cur]|e] eqn:Hspecs.
    + rewrite (predecessor_step_ok _ _ _ _ _ _ _ _ _ Hrc Hspecs).
      set (rc1 := dict_set (KNode n) _ rc).
      set (new1 := map _ prevs).
      destruct (IH rc1 (add_calls st new1)) as (before & rest & res & -> & Hbefore & Hrun & Hres).
      { by apply nodes_only_set. }
      exists (n :: before), rest, res. split; [done|]. split; [|split].
      * intros Q HQ. apply elem_of_cons in HQ as [->|HQ]; [by eexists|].
        destruct (Hbefore Q HQ) as [x Hx].
        rewrite predecessor_sharding_specs_add_calls in Hx. by exists x.
      * rewrite Hrun, add_calls_app. do 2 f_equal. simpl. f_equal.
        { unfold oracle_calls_for. by rewrite Hspecs. }
        apply flat_map_ext. intros P. apply oracle_calls_for_add_calls.
      * destruct res as [rc'|e]; [done|].
        destruct Hres as (P & after & -> & HP).
        rewrite predecessor_sharding_specs_add_calls in HP. by exists P, after.
    + rewrite (predecessor_step_raise _ _ _ _ _ _ _ Hspecs).
      exists [], (n :: l), (Raise e). simpl. rewrite add_calls_nil.
      split; [done|]. split; [|split; [done|by exists n, l]].
      intros Q HQ. by apply elem_of_nil in HQ.
Qed.

Lemma update_resharding_cost_exact self strategy st :
  ∃ before rest res,
    predecessor_node self = before ++ rest
    ∧ (∀ Q, Q ∈ before → ∃ x, fst (specs_of strategy Q st) = Ok x)
    ∧ update_resharding_cost G shape_consistency self strategy st
      = (match res with
         | Ok rc => Ok (set_resharding_costs strategy rc)
         | Raise e => Raise e
         end,
         add_calls st (Call_update_resharding_cost strategy
                       :: flat_map (oracle_calls_for G strategy st) before))
    ∧ match res with
      | Ok _ => rest = []
      | Raise e => ∃ P after, rest = P :: after
                             ∧ fst (specs_of strategy P st) = Raise e
      end.
Proof.
  destruct (predecessors_loop_exact strategy (predecessor_node self) []
              (add_calls st [Call_update_resharding_cost strategy]) nodes_only_nil)
    as (before & rest & res & Hsplit & Hbefore & Hrun & Hres).
  exists before, rest, res. split; [done|]. split; [|split].
  - intros Q HQ. destruct (Hbefore Q HQ) as [x Hx].
    rewrite predecessor_sharding_specs_add_calls in Hx. by exists x.
  - unfold update_resharding_cost, bind, record_call.
    fold (add_calls st [Call_update_resharding_cost strategy]).
    rewrite Hrun, add_calls_app. simpl.
    rewrite (flat_map_ext _ (oracle_calls_for G strategy st))
      by (intros P; apply oracle_calls_for_add_calls).
    by destruct res.
  - destruct res as [rc|e]; [done|]. destruct Hres as (P & after & -> & HP).
    rewrite predecessor_sharding_specs_add_calls in HP. by exists P, after.
Qed.

(** The keys the loop adds, when the predecessors are distinct. *)
Lemma predecessors_loop_keys strategy : ∀ l rc st rc' st',
  nodes_only rc → NoDup l → (∀ P, P ∈ l → KNode P ∉ map fst rc) →
  for_fold (costs_of strategy) l rc st = (Ok rc', st') →
  map fst rc' = map fst rc ++ (KNode <$> l).
Proof.
  induction l as [|n l IH]; intros rc st rc' st' Hrc Hnodup Hfresh; simpl.
  - intros [= <- _]. by rewrite app_nil_r.
  - unfold bind at 1.
    destruct (fst (specs_of strategy n st)) as [[[prevs op] cur]|e] eqn:Hspecs.
    + rewrite (predecessor_step_ok _ _ _ _ _ _ _ _ _ Hrc Hspecs). intros Hrun.
      apply NoDup_cons in Hnodup as [Hn Hnodup].
      apply IH in Hrun; [|by apply nodes_only_set|done|].
      * rewrite Hrun, dict_set_keys_fresh, <- (assoc_L (++)); [done|].
        apply Hfresh. by left.
      * intros P HP. rewrite dict_set_keys_fresh by (apply Hfresh; by left).
        rewrite elem_of_app, list_elem_of_singleton.
        intros [Hin|[= ->]]; [|done]. eapply Hfresh; [by right|done].
    + by rewrite (predecessor_step_raise _ _ _ _ _ _ _ Hspecs).
Qed.

(** The outcome of the loop depends on the store through the vectors and the
    node attributes only. *)
Lemma predecessors_loop_reads strategy : ∀ l rc st1 st2,
  nodes_only rc →
  vectors st1 = vectors st2 →
  node_strategies_vector st1 = node_strategies_vector st2 →
  fst (for_fold (costs_of strategy) l rc st1) = fst (for_fold (costs_of strategy) l rc st2).
Proof.
  induction l as [|n l IH]; intros rc st1 st2 Hrc Hvec Hattr; simpl; [done|].
  unfold bind.
  pose proof (predecessor_sharding_specs_reads strategy n st1 st2 Hvec Hattr) as Hreads.
  destruct (fst (specs_of strategy n st2)) as [[[prevs op] cur]|e] eqn:Hspecs.
  - rewrite (predecessor_step_ok _ _ _ _ _ _ _ _ _ Hrc Hreads).
    rewrite (predecessor_step_ok _ _ _ _ _ _ _ _ _ Hrc Hspecs).
    apply IH; [by apply nodes_only_set|done|done].
  - rewrite (predecessor_step_raise _ _ _ _ _ _ _ Hreads).
    by rewrite (predecessor_step_raise _ _ _ _ _ _ _ Hspecs).
Qed.

Lemma predecessors_loop_strategy strategy1 strategy2 :
  sharding_specs strategy1 = sharding_specs strategy2 →
  ∀ l rc st, for_fold (costs_of strategy1) l rc st = for_fold (costs_of strategy2) l rc st.
Proof.
  intros Hspecs. induction l as [|n l IH]; intros rc st; simpl; [done|].
  unfold bind, predecessor_resharding_costs at 1 3, bind.
  rewrite (predecessor_sharding_specs_strategy _ _ _ _ Hspecs).
  destruct (specs_of strategy2 n st) as [[[[prevs op] cur]|e] st1]; [|done].
  destruct (for_fold _ prevs _ st1) as [[rc1|e] st2]; [apply IH|done].
Qed.

(** The calls made for a predecessor whose layouts could be read are those
    the specification has for it. *)
Lemma oracle_calls_for_aligned strategy st P x :
  fst (specs_of strategy P st) = Ok x →
  oracle_calls_aligned G strategy st P (oracle_calls_for G strategy st P).
Proof.
  destruct x as [[prevs op] cur]. intros Hspecs.
  unfold oracle_calls_for. rewrite Hspecs.
  apply predecessor_sharding_specs_Ok in Hspecs as (vec & Hvec & Hmap & Hop & Hcur).
  apply exc_map_Ok in Hmap as [Hlen Hall].
  exists vec, cur. split; [done|]. split; [by exists op|].
  apply Forall2_same_length_lookup_2; [by rewrite length_map|].
  intros i prev_strategy ev Hi Hev.
  destruct (Hall i prev_strategy Hi) as (prev & Hprev & Hi').
  rewrite list_lookup_fmap, Hi' in Hev. injection Hev as <-. by exists prev.
Qed.

(** X2. When [update_resharding_cost] returns, the calls it recorded are its
    own entry followed by one segment of calls of the oracle per predecessor,
    in the order of the predecessors, and nothing else.  The segment of a
    predecessor holds exactly one call per candidate of the vector of that
    predecessor, in the order of the vector, each from the layout the
    candidate has for the operand named after the predecessor to the layout
    the strategy asks for that operand. *)
Theorem update_resharding_cost_calls self strategy st S st' :
  update_resharding_cost G shape_consistency self strategy st = (Ok S, st') →
  ∃ segs,
    calls st' = calls st ++ Call_update_resharding_cost strategy :: concat segs
    ∧ Forall2 (oracle_calls_aligned G strategy st) (predecessor_node self) segs.
Proof.
  intros Hrun.
  destruct (update_resharding_cost_exact self strategy st)
    as (before & rest & res & Hsplit & Hbefore & Hrun' & Hres).
  rewrite Hrun in Hrun'. destruct res as [rc|e]; [|done].
  rewrite Hres, app_nil_r in Hsplit. subst before.
  injection Hrun' as _ ->.
  exists (map (oracle_calls_for G strategy st) (predecessor_node self)).
  split; [simpl; by rewrite flat_map_concat_map|].
  apply Forall2_fmap_r, Forall_Forall2_diag, Forall_forall.
  intros P HP. destruct (Hbefore P HP) as [x Hx].
  by eapply oracle_calls_for_aligned.
Qed.

(** X3. When the predecessors are distinct, the [resharding_costs] that
    [update_resharding_cost] assigns has exactly one key per predecessor, the
    node itself, in the order of the predecessors, and no other key. *)
Theorem update_resharding_cost_keys self strategy st S st' :
  NoDup (predecessor_node self) →
  update_resharding_cost G shape_consistency self strategy st = (Ok S, st') →
  ∃ rc, resharding_costs S = Some rc ∧ map fst rc = KNode <$> predecessor_node self.
Proof.
  intros Hnodup Hrun. unfold update_resharding_cost, bind, record_call in Hrun.
  destruct (for_fold _ _ _ _) as [[rc|e] st1] eqn:Hloop; [|done].
  injection Hrun as <- _. exists rc. split; [done|].
  apply predecessors_loop_keys in Hloop; [done|apply nodes_only_nil|done|].
  intros P _. apply not_elem_of_nil.
Qed.

(** X4. Running [update_resharding_cost] again on the strategy it returned
    gives the same strategy: the costs of a predecessor are replaced by the
    same values, not accumulated. *)
Theorem update_resharding_cost_idempotent self strategy st S st' :
  update_resharding_cost G shape_consistency self strategy st = (Ok S, st') →
  fst (update_resharding_cost G shape_consistency self S st') = Ok S.
Proof.
  intros Hrun. unfold update_resharding_cost, bind, record_call in *.
  destruct (for_fold (costs_of strategy) _ _ _) as [[rc|e] st1] eqn:Hloop; [|done].
  injection Hrun as <- <-.
  pose proof (update_resharding_cost_run G shape_consistency self strategy st)
    as (res & new & Hloop' & _). fold (add_calls st [Call_update_resharding_cost strategy]) in Hloop.
  rewrite Hloop in Hloop'. injection Hloop' as <- ->.
  rewrite <- (predecessors_loop_strategy strategy (set_resharding_costs strategy rc) eq_refl).
  match goal with
  | |- context [for_fold _ _ _ ?st2] =>
      pose proof (predecessors_loop_reads strategy (predecessor_node self) [] st2
                    (add_calls st [Call_update_resharding_cost strategy])
                    nodes_only_nil eq_refl eq_refl) as Hreads
  end.
  rewrite Hloop in Hreads. simpl in Hreads |- *.
  match type of Hreads with
  | fst ?run = _ => destruct run as [res2 st2]
  end.
  simpl in Hreads. by subst res2.
Qed.

(** X5. The only assertion that can fail in [update_resharding_cost] is the
    one of line 55: when the method raises an [AssertionError], some
    predecessor has no strategies vector, the message names the first such
    predecessor, and every predecessor before it has a vector. *)
Theorem update_resharding_cost_assertion self strategy st msg :
  fst (update_resharding_cost G shape_consistency self strategy st)
  = Raise (AssertionError msg) →
  ∃ before P after,
    predecessor_node self = before ++ P :: after
    ∧ node_strategies_vector st P = None
    ∧ AssertionError msg = no_strategy_vector G P
    ∧ ∀ Q, Q ∈ before → is_Some (node_strategies_vector st Q).
Proof.
  intros Hrun.
  destruct (update_resharding_cost_exact self strategy st)
    as (before & rest & res & Hsplit & Hbefore & Hrun' & Hres).
  rewrite Hrun' in Hrun. simpl in Hrun. destruct res as [rc|e]; [done|].
  injection Hrun as ->. destruct Hres as (P & after & -> & HP).
  apply predecessor_sharding_specs_assertion in HP as [Hnone Hmsg].
  exists before, P, after. split; [done|]. split; [done|]. split; [done|].
  intros Q HQ. destruct (Hbefore Q HQ) as [[[prevs op] cur] Hspecs].
  apply predecessor_sharding_specs_Ok in Hspecs as (vec & -> & _). by eexists.
Qed.

(** X6. When [update_resharding_cost] raises, it does so while reading the
    layouts of one predecessor, before any call of the oracle for it: the
    calls recorded are the entry and the calls for the predecessors before
    that one, which stay in the log, and no later predecessor is looked at. *)
Theorem update_resharding_cost_failure self strategy st e st' :
  update_resharding_cost G shape_consistency self strategy st = (Raise e, st') →
  ∃ before P after,
    predecessor_node self = before ++ P :: after
    ∧ (∀ Q, Q ∈ before → ∃ x, fst (predecessor_sharding_specs G strategy Q st) = Ok x)
    ∧ fst (predecessor_sharding_specs G strategy P st) = Raise e
    ∧ calls st' = calls st ++ Call_update_resharding_cost strategy
                            :: flat_map (oracle_calls_for G strategy st) before.
Proof.
  intros Hrun.
  destruct (update_resharding_cost_exact self strategy st)
    as (before & rest & res & Hsplit & Hbefore & Hrun' & Hres).
  rewrite Hrun in Hrun'. destruct res as [rc|e']; [done|].
  injection Hrun' as -> ->. destruct Hres as (P & after & -> & HP).
  by exists before, P, after.
Qed.
End MoreUpdate.

(** ** More on [register_strategy] *)

Section Checks.
Variable check : ShardingSpec → Tensor → Exc unit.

Lemma run_checks_passes entries :
  Forall (passes check) entries → run_checks check entries = (entries, Ok tt).
Proof.
  induction 1 as [|entry entries Hentry _ IH]; simpl; [done|].
  unfold passes in Hentry. by rewrite Hentry, IH.
Qed.

Lemma run_checks_Ok entries :
  snd (run_checks check entries) = Ok tt → Forall (passes check) entries.
Proof.
  induction entries as [|entry entries IH]; simpl; [done|].
  destruct (check entry.1 entry.2) as [[]|e] eqn:Hentry; [|done].
  destruct (run_checks check entries) as [checked res]. simpl in *.
  intros ->. constructor; [done|by apply IH].
Qed.

Lemma run_checks_Raise entries e :
  snd (run_checks check entries) = Raise e →
  ∃ pre entry post,
    entries = pre ++ entry :: post
    ∧ Forall (passes check) pre
    ∧ check entry.1 entry.2 = Raise e
    ∧ fst (run_checks check entries) = pre ++ [entry].
Proof.
  induction entries as [|entry entries IH]; simpl; [done|].
  destruct (check entry.1 entry.2) as [[]|e'] eqn:Hentry.
  - destruct (run_checks check entries) as [checked res]. simpl in *.
    intros Hres. destruct (IH Hres) as (pre & entry' & post & -> & Hpre & He & ->).
    exists (entry :: pre), entry', post. by repeat split; [constructor|..].
  - simpl. intros [= ->]. by exists [], entry, entries.
Qed.

Lemma run_checks_app entries1 entries2 :
  run_checks check (entries1 ++ entries2)
  = match snd (run_checks check entries1) with
    | Ok _ => (fst (run_checks check entries1) ++ fst (run_checks check entries2),
               snd (run_checks check entries2))
    | Raise e => run_checks check entries1
    end.
Proof.
  induction entries1 as [|entry entries1 IH]; simpl.
  - by destruct (run_checks check entries2).
  - destruct (check entry.1 entry.2) as [[]|e]; [|done]. rewrite IH.
    destruct (run_checks check entries1) as [checked [[]|e]]; simpl; [|done].
    by destruct (run_checks check entries2).
Qed.

Lemma run_checks_prefix entries :
  fst (run_checks check entries) `prefix_of` entries.
Proof.
  induction entries as [|entry entries IH]; simpl; [done|].
  destruct (check entry.1 entry.2) as [[]|e].
  - destruct (run_checks check entries) as [checked res]. simpl in *.
    by apply prefix_cons.
  - simpl. by apply prefix_cons, prefix_nil.
Qed.

Lemma strategy_checks_passes strategy :
  strategy_checks check strategy ↔ Forall (passes check) (tensor_operands strategy).
Proof.
  unfold strategy_checks, tensor_operands. rewrite Forall_forall. split.
  - intros Hall [spec t] Hin. apply list_elem_of_omap in Hin as ([op spec'] & Hin & Hsome).
    unfold tensor_operand in Hsome. simpl in Hsome.
    destruct (data op) as [|t'|] eqn:Hdata; [done| |done].
    injection Hsome as -> ->. by eapply Hall.
  - intros Hall op spec t Hin Hdata. apply (Hall (spec, t)).
    apply list_elem_of_omap. exists (op, spec). split; [done|].
    unfold tensor_operand. simpl. by rewrite Hdata.
Qed.

Lemma vector_checks_passes vec :
  Forall (strategy_checks check) vec ↔ Forall (passes check) (checks_of vec).
Proof.
  unfold checks_of. induction vec as [|strategy vec IH]; simpl; [done|].
  by rewrite Forall_cons, Forall_app, IH, strategy_checks_passes.
Qed.

Lemma tensor_operand_tensor op spec t :
  data op = PyTensor t → tensor_operand (op, spec) = Some (spec, t).
Proof. intros Hdata. unfold tensor_operand. simpl. by rewrite Hdata. Qed.

Lemma tensor_operand_other op spec :
  (∀ t, data op ≠ PyTensor t) → tensor_operand (op, spec) = None.
Proof.
  intros Hdata. unfold tensor_operand. simpl.
  destruct (data op) as [|t|repr]; [done|by destruct (Hdata t)|done].
Qed.

Lemma check_operands_exact specs : ∀ st,
  for_each (check_operand check) specs st
  = (snd (run_checks check (omap tensor_operand specs)),
     add_calls st (map check_call (fst (run_checks check (omap tensor_operand specs))))).
Proof.
  induction specs as [|[op spec] specs IH]; intros st; cbn [for_each].
  - simpl. by rewrite add_calls_nil.
  - assert ((∃ t, data op = PyTensor t) ∨ (∀ t, data op ≠ PyTensor t))
      as [[t Hdata]|Hdata].
    { destruct (data op) as [|t|repr]; [by right|left; by exists t|by right]. }
    + unfold bind. rewrite (check_operand_tensor _ _ _ _ _ Hdata).
      cbn [omap list_omap]. rewrite (tensor_operand_tensor _ spec _ Hdata).
      cbn [run_checks fst snd].
      destruct (check spec t) as [[]|e]; [|done].
      rewrite IH, add_calls_app.
      by destruct (run_checks check (omap tensor_operand specs)).
    + unfold bind. rewrite (check_operand_other _ _ _ _ Hdata), IH.
      cbn [omap list_omap]. by rewrite (tensor_operand_other _ spec Hdata).
Qed.

Lemma validate_exact vec : ∀ st,
  for_each (λ strategy, for_each (check_operand check) (sharding_specs strategy)) vec st
  = (snd (run_checks check (checks_of vec)),
     add_calls st (map check_call (fst (run_checks check (checks_of vec))))).
Proof.
  unfold checks_of.
  induction vec as [|strategy vec IH]; intros st; cbn [for_each flat_map].
  - simpl. by rewrite add_calls_nil.
  - unfold bind. rewrite check_operands_exact, run_checks_app.
    fold (tensor_operands strategy).
    destruct (run_checks check (tensor_operands strategy)) as [checked [[]|e]];
      cbn [fst snd]; [|done].
    by rewrite IH, add_calls_app, map_app.
Qed.
End Checks.

Section MoreRegister.
Variable G : Graph.
Variable shape_consistency : ShardingSpec → ShardingSpec → ReshardingCost.
Variable check : ShardingSpec → Tensor → Exc unit.
Context {cls : NodeHandlerClass}.

(** [register_strategy] with the validation in closed form. *)
Lemma register_strategy_exact self flag st :
  ∃ res1 done rest added new1 st1,
    for_each (register_generator G shape_consistency self flag)
             (get_strategy_generator self) st = (res1, st1)
    ∧ get_strategy_generator self = done ++ rest
    ∧ step (strategies_vector self) added new1 st st1
    ∧ Forall (λ ev, ¬ is_check_call ev) new1
    ∧ (flag = false → new1 = [] ∧ res1 = Ok tt)
    ∧ (res1 = Ok tt → rest = [])
    ∧ committed G shape_consistency self flag st (all_candidates self done) added
    ∧ register_strategy G shape_consistency check self flag st
      = match res1 with
        | Raise e => (Raise e, st1)
        | Ok _ =>
            (match snd (run_checks check (checks_of (vectors st1 (strategies_vector self)))) with
             | Ok _ => Ok (strategies_vector self)
             | Raise e => Raise e
             end,
             add_calls st1
               (map check_call
                  (fst (run_checks check (checks_of (vectors st1 (strategies_vector self)))))))
        end.
Proof.
  destruct (generators_loop G shape_consistency self flag (get_strategy_generator self) st)
    as (res1 & done & rest & added & new1 & st1 & Hrun1 & Hsplit & Hstep & Hnew1
        & Hfalse & Hok & Hcommitted).
  exists res1, done, rest, added, new1, st1.
  repeat (split; [done|]).
  unfold register_strategy, bind at 1. rewrite Hrun1.
  destruct res1 as [[]|e]; [|done].
  unfold bind, get_state. rewrite validate_exact.
  by destruct (snd (run_checks _ _)).
Qed.

(** Without the costs, the vector after the call, whatever its outcome. *)
Lemma register_strategy_false_vector self st :
  ∃ st1,
    for_each (register_generator G shape_consistency self false)
             (get_strategy_generator self) st = (Ok tt, st1)
    ∧ vectors st1 (strategies_vector self)
      = vectors st (strategies_vector self)
        ++ all_candidates self (get_strategy_generator self)
    ∧ calls st1 = calls st
    ∧ vectors (snd (register_strategy G shape_consistency check self false st))
              (strategies_vector self)
      = vectors st1 (strategies_vector self).
Proof.
  destruct (register_strategy_exact self false st)
    as (res1 & done & rest & added & new1 & st1 & Hrun1 & Hsplit & Hstep & _
        & Hfalse & Hok & Hcommitted & Hrun).
  destruct (Hfalse eq_refl) as [-> ->]. rewrite (Hok eq_refl), app_nil_r in Hsplit.
  simpl in Hcommitted. subst added done. exists st1.
  destruct Hstep as (Hvec & _ & Hcalls). split; [done|]. split.
  { by rewrite Hvec, decide_True. }
  split; [by rewrite Hcalls, app_nil_r|]. by rewrite Hrun.
Qed.

(** X7. With [compute_resharding_cost] false, [register_strategy] returns its
    vector exactly when every layout of a tensor-holding operand passes the
    check, for the strategies that were in the vector before the call as well
    as for the candidates. *)
Theorem register_strategy_false_returns_iff self st :
  fst (register_strategy G shape_consistency check self false st)
  = Ok (strategies_vector self)
  ↔ Forall (strategy_checks check)
      (vectors st (strategies_vector self)
       ++ all_candidates self (get_strategy_generator self)).
Proof.
  destruct (register_strategy_false_vector self st) as (st1 & Hrun1 & Hvec & _ & _).
  destruct (register_strategy_exact self false st)
    as (res1 & done & rest & added & new1 & st1' & Hrun1' & _ & _ & _ & _ & _ & _ & Hrun).
  rewrite Hrun1 in Hrun1'. injection Hrun1' as <- <-.
  rewrite Hrun, Hvec, vector_checks_passes. simpl. split.
  - intros Hok. apply run_checks_Ok.
    match goal with |- ?res = _ => by destruct res as [[]|e] end.
  - intros Hall. by rewrite (run_checks_passes _ _ Hall).
Qed.

(** X8. In [register_strategy] the validation comes last: the calls recorded
    are calls of [update_resharding_cost] and of the oracle first, then calls
    of the check, so that the layouts of an invalid candidate were sent to the
    oracle before they were checked.  The checking calls go through the
    tensor-holding operands of the vector in order, once each, as far as the
    validation gets, and through all of them when the call returns. *)
Theorem register_strategy_validates_last self flag st :
  ∃ new1 checked,
    calls (snd (register_strategy G shape_consistency check self flag st))
    = calls st ++ new1 ++ map check_call checked
    ∧ Forall (λ ev, ¬ is_check_call ev) new1
    ∧ checked `prefix_of`
        checks_of (vectors (snd (register_strategy G shape_consistency check self flag st))
                           (strategies_vector self))
    ∧ (∀ r, fst (register_strategy G shape_consistency check self flag st) = Ok r →
         checked
         = checks_of (vectors (snd (register_strategy G shape_consistency check self flag st))
                              (strategies_vector self))).
Proof.
  destruct (register_strategy_exact self flag st)
    as (res1 & done & rest & added & new1 & st1 & _ & _ & Hstep & Hnew1 & _ & _ & _ & ->).
  destruct Hstep as (_ & _ & Hcalls). destruct res1 as [[]|e]; simpl.
  - exists new1, (fst (run_checks check (checks_of (vectors st1 (strategies_vector self))))).
    rewrite Hcalls, (assoc_L (++)). split; [done|]. split; [done|].
    split; [apply run_checks_prefix|].
    intros r Hr.
    destruct (snd (run_checks check _)) as [[]|e] eqn:Hres; [|done].
    apply run_checks_Ok in Hres. by rewrite (run_checks_passes _ _ Hres).
  - exists new1, []. rewrite Hcalls, app_nil_r.
    split; [done|]. split; [done|]. split; [apply prefix_nil|done].
Qed.

(** X9. The validation stops at the first layout that fails: when the loop
    over the generators has ended and [register_strategy] raises, the
    tensor-holding operands before the failing one all pass, the error is
    that of the check on the failing one, the failing call is the last one
    recorded, and no later operand is checked. *)
Theorem register_strategy_first_failure self flag st st1 e :
  for_each (register_generator G shape_consistency self flag)
           (get_strategy_generator self) st = (Ok tt, st1) →
  fst (register_strategy G shape_consistency check self flag st) = Raise e →
  ∃ pre entry post,
    checks_of (vectors st1 (strategies_vector self)) = pre ++ entry :: post
    ∧ Forall (passes check) pre
    ∧ check entry.1 entry.2 = Raise e
    ∧ calls (snd (register_strategy G shape_consistency check self flag st))
      = calls st1 ++ map check_call (pre ++ [entry]).
Proof.
  intros Hloop Hraise.
  destruct (register_strategy_exact self flag st)
    as (res1 & done & rest & added & new1 & st1' & Hrun1 & _ & _ & _ & _ & _ & _ & Hrun).
  rewrite Hloop in Hrun1. injection Hrun1 as <- <-.
  rewrite Hrun in Hraise |- *. simpl in *.
  destruct (snd (run_checks check _)) as [[]|e'] eqn:Hres; [done|].
  injection Hraise as ->.
  apply run_checks_Raise in Hres as (pre & entry & post & Hsplit & Hpre & He & Hchecked).
  exists pre, entry, post. by rewrite Hchecked.
Qed.

(** X10. [register_strategy] does not look at what the vector already holds:
    a second call, here without the costs, appends the candidates a second
    time. *)
Theorem register_strategy_twice self st :
  vectors (snd (register_strategy G shape_consistency check self false
                  (snd (register_strategy G shape_consistency check self false st))))
          (strategies_vector self)
  = vectors st (strategies_vector self)
    ++ all_candidates self (get_strategy_generator self)
    ++ all_candidates self (get_strategy_generator self).
Proof.
  destruct (register_strategy_false_vector self st) as (st1 & _ & Hvec1 & _ & Hfirst).
  destruct (register_strategy_false_vector self
              (snd (register_strategy G shape_consistency check self false st)))
    as (st2 & _ & Hvec2 & _ & Hsecond).
  by rewrite Hsecond, Hvec2, Hfirst, Hvec1, (assoc_L (++)).
Qed.

(** X11. When the vector of the handler is not the vector of one of its
    predecessors, every strategy that [register_strategy] appends with the
    costs computed is aligned with the predecessors as the store has them
    after the call: for every predecessor, its [resharding_costs] holds as
    many items as the vector of the predecessor has candidates. *)
Theorem register_strategy_alignment self st :
  (∀ P, P ∈ predecessor_node self →
        node_strategies_vector st P ≠ Some (strategies_vector self)) →
  ∃ added,
    vectors (snd (register_strategy G shape_consistency check self true st))
            (strategies_vector self)
    = vectors st (strategies_vector self) ++ added
    ∧ ∀ S P, S ∈ added → P ∈ predecessor_node self →
        ∃ vec rc costs,
          node_strategies_vector
            (snd (register_strategy G shape_consistency check self true st)) P = Some vec
          ∧ resharding_costs S = Some rc
          ∧ dict_get (KNode P) rc = Some costs
          ∧ length costs
            = length (vectors (snd (register_strategy G shape_consistency check self true st))
                              vec).
Proof.
  intros Hother.
  destruct (register_strategy_run G shape_consistency check self true st)
    as (res1 & done & rest & added & new1 & st1 & res & new2 & _ & _ & Hstep & _ & _ & _
        & [Hlen Hall] & -> & _).
  simpl. destruct Hstep as (Hvec & Hattr & _).
  exists added. split; [by rewrite Hvec, decide_True|].
  intros S P HS HP. apply list_elem_of_lookup in HS as [i Hi].
  destruct (Hall i S Hi) as (c & earlier & new & sta & stb & _ & (Hveca & Hattra & _) & _ & Hrun).
  destruct (update_resharding_cost_run G shape_consistency self c sta)
    as (res' & new' & _ & _ & Hpost & Hrun').
  rewrite Hrun in Hrun'. destruct res' as [rc|e]; [|done]. injection Hrun' as -> _.
  destruct Hpost as (_ & _ & Hpreds & _).
  destruct (Hpreds P HP) as (prevs & op & cur & Hspecs & Hget).
  apply predecessor_sharding_specs_Ok in Hspecs as (vec & Hvec' & Hmap & _).
  apply exc_map_Ok in Hmap as [Hprevs _].
  rewrite Hattra in Hvec'.
  assert (vec ≠ strategies_vector self) as Hne.
  { intros ->. by apply (Hother P HP). }
  exists vec, rc, (map (λ prev, to_item (shape_consistency prev cur)) prevs).
  split; [by rewrite Hattr|]. split; [done|]. split; [done|].
  rewrite length_map, Hprevs, Hveca, Hvec, !decide_False by done. done.
Qed.

(** A node without predecessors: the costs of every candidate are the empty
    dictionary, and nothing can raise before the validation. *)
Lemma update_resharding_cost_no_predecessor self strategy st :
  predecessor_node self = [] →
  update_resharding_cost G shape_consistency self strategy st
  = (Ok (set_resharding_costs strategy []),
     add_calls st [Call_update_resharding_cost strategy]).
Proof. intros Hnone. unfold update_resharding_cost. by rewrite Hnone. Qed.

Lemma map_list_update_no_predecessor self cands : ∀ st,
  predecessor_node self = [] →
  map_list (update_resharding_cost G shape_consistency self) cands st
  = (Ok (map (λ c, set_resharding_costs c []) cands),
     add_calls st (map Call_update_resharding_cost cands)).
Proof.
  induction cands as [|c cands IH]; intros st Hnone; simpl.
  - by rewrite add_calls_nil.
  - unfold bind. rewrite (update_resharding_cost_no_predecessor _ _ _ Hnone), (IH _ Hnone).
    unfold ret. by rewrite add_calls_app.
Qed.

Lemma generators_loop_no_predecessor self : ∀ generators st,
  predecessor_node self = [] →
  ∃ st1,
    for_each (register_generator G shape_consistency self true) generators st = (Ok tt, st1)
    ∧ step (strategies_vector self)
           (map (λ c, set_resharding_costs c []) (all_candidates self generators))
           (map Call_update_resharding_cost (all_candidates self generators)) st st1.
Proof.
  induction generators as [|g generators IH]; intros st Hnone; simpl.
  - exists st. split; [done|apply step_refl].
  - unfold bind at 1, register_generator at 1, bind.
    fold (candidates self g). rewrite (map_list_update_no_predecessor _ _ _ Hnone).
    destruct (IH (snd (extend (strategies_vector self)
                         (map (λ c, set_resharding_costs c []) (candidates self g))
                         (add_calls st (map Call_update_resharding_cost (candidates self g)))))
                 Hnone) as (st1 & Hrun & Hstep).
    exists st1. split; [exact Hrun|].
    unfold all_candidates in *. simpl. rewrite !map_app.
    eapply step_trans; [|exact Hstep].
    pose proof (step_trans _ _ _ _ _ _ _ _
                  (step_add_calls (strategies_vector self) st
                     (map Call_update_resharding_cost (candidates self g)))
                  (step_extend (strategies_vector self)
                     (map (λ c, set_resharding_costs c []) (candidates self g))
                     (add_calls st (map Call_update_resharding_cost (candidates self g)))))
      as Hstep0.
    by rewrite app_nil_r in Hstep0.
Qed.

(** X12. For a node without predecessors, [register_strategy] with the costs
    computed never consults the oracle and cannot raise before the
    validation: every candidate is appended with an empty [resharding_costs]
    dictionary, and the calls recorded are one entry into
    [update_resharding_cost] per candidate, followed by checking calls. *)
Theorem register_strategy_no_predecessor self st :
  predecessor_node self = [] →
  vectors (snd (register_strategy G shape_consistency check self true st))
          (strategies_vector self)
  = vectors st (strategies_vector self)
    ++ map (λ c, set_resharding_costs c [])
           (all_candidates self (get_strategy_generator self))
  ∧ ∃ checked,
      calls (snd (register_strategy G shape_consistency check self true st))
      = calls st
        ++ map Call_update_resharding_cost
               (all_candidates self (get_strategy_generator self))
        ++ map check_call checked.
Proof.
  intros Hnone.
  destruct (generators_loop_no_predecessor self (get_strategy_generator self) st Hnone)
    as (st1 & Hloop & Hvec & _ & Hcalls).
  destruct (register_strategy_exact self true st)
    as (res1 & done & rest & added & new1 & st1' & Hrun1 & _ & _ & _ & _ & _ & _ & ->).
  rewrite Hloop in Hrun1. injection Hrun1 as <- <-. simpl.
  split; [by rewrite Hvec, decide_True|].
  eexists. by rewrite Hcalls, (assoc_L (++)).
Qed.

Lemma candidates_default self generator :
  (∀ strategy, post_process self strategy = One strategy) →
  candidates self generator = generate generator.
Proof.
  intros Hdefault. unfold candidates, flatten_post_processed.
  induction (generate generator) as [|strategy l IH]; simpl; [done|].
  by rewrite Hdefault, IH.
Qed.

(** X13. With the default [post_process], which returns the strategy it is
    given, and without the costs, [register_strategy] appends to the vector
    exactly what the generators generate, generator after generator. *)
Theorem register_strategy_default_post_process self st :
  (∀ strategy, post_process self strategy = NodeHandler_post_process self strategy) →
  vectors (snd (register_strategy G shape_consistency check self false st))
          (strategies_vector self)
  = vectors st (strategies_vector self)
    ++ concat (map generate (get_strategy_generator self)).
Proof.
  intros Hdefault.
  destruct (register_strategy_false_vector self st) as (st1 & _ & Hvec & _ & ->).
  rewrite Hvec. f_equal. unfold all_candidates. f_equal.
  apply map_ext. intros g. by apply candidates_default.
Qed.

Lemma checks_of_committed flag cands added :
  Forall2 (committed_as flag) cands added → checks_of added = checks_of cands.
Proof.
  unfold checks_of. induction 1 as [|c s' cands added Hc _ IH]; simpl; [done|].
  rewrite IH. f_equal. destruct flag; simpl in Hc; [|by subst].
  by destruct Hc as [rc ->].
Qed.

(** X15. Computing the costs does not change the verdict of the validation:
    when the loop over the generators ends with the costs computed,
    [register_strategy] returns or raises as it does without the costs, with
    the same error. *)
Theorem register_strategy_verdict_with_costs self st st1 :
  for_each (register_generator G shape_consistency self true)
           (get_strategy_generator self) st = (Ok tt, st1) →
  fst (register_strategy G shape_consistency check self true st)
  = fst (register_strategy G shape_consistency check self false st).
Proof.
  intros Hloop.
  destruct (register_strategy_exact self true st)
    as (res1 & done & rest & added & new1 & st1' & Hrun1 & Hsplit & (Hvec & _) & _ & _
        & Hok & Hcommitted & ->).
  rewrite Hloop in Hrun1. injection Hrun1 as <- <-.
  rewrite (Hok eq_refl), app_nil_r in Hsplit. subst done.
  destruct (register_strategy_false_vector self st) as (st2 & Hloop2 & Hvec2 & _ & _).
  destruct (register_strategy_exact self false st)
    as (res1 & done & rest' & added' & new1' & st2' & Hrun2 & _ & _ & _ & _ & _ & _ & ->).
  rewrite Hloop2 in Hrun2. injection Hrun2 as <- <-. simpl.
  rewrite Hvec, decide_True, Hvec2 by done.
  apply (committed_committed_as G shape_consistency) in Hcommitted.
  assert (∀ l1 l2, checks_of (l1 ++ l2) = checks_of l1 ++ checks_of l2) as Happ.
  { intros l1 l2. apply flat_map_app. }
  by rewrite !Happ, (checks_of_committed _ _ _ Hcommitted).
Qed.
End MoreRegister.

(** ** More on [ModuleHandler.__init__] *)

Lemma dict_get_NoDup {K V} `{EqDecision K} (k : K) (v : V) d :
  NoDup (map fst d) → (k, v) ∈ d → dict_get k d = Some v.
Proof.
  induction d as [|[k1 v1] d IH]; simpl; intros Hnodup Hin.
  - by apply elem_of_nil in Hin.
  - apply NoDup_cons in Hnodup as [Hk1 Hnodup].
    apply elem_of_cons in Hin as [[= -> ->]|Hin]; [by rewrite decide_True|].
    destruct (decide (k1 = k)) as [->|Hne]; [|by apply IH].
    destruct Hk1. apply list_elem_of_fmap. by exists (k, v).
Qed.

Lemma dict_of_pairs_NoDup pairs k t :
  NoDup (map fst pairs) → dict_of_pairs pairs !! k = Some t ↔ (k, t) ∈ pairs.
Proof.
  intros Hnodup. split; [apply dict_of_pairs_elem|].
  intros Hin. rewrite dict_of_pairs_lookup. apply dict_get_NoDup.
  - change (NoDup (fst <$> reverse pairs)).
    by rewrite fmap_reverse, reverse_Permutation.
  - by rewrite elem_of_reverse.
Qed.

Lemma dict_of_members_NoDup members k p :
  NoDup (map fst members) →
  dict_of_pairs (_named_members [] members) !! k = Some p
  ↔ first_registration members k p.
Proof.
  intros Hnodup. rewrite <- named_members_first_registration.
  apply dict_of_pairs_NoDup. eapply sublist_NoDup; [done|apply _named_members_names].
Qed.

Lemma first_registration_None members k p :
  NoDup (map fst members) → (k, None) ∈ members → ¬ first_registration members k p.
Proof.
  intros Hnodup (j & Hj)%list_elem_of_lookup (i & Hi & _).
  assert (i = j) as ->.
  { eapply NoDup_lookup; [done| |]; rewrite list_lookup_fmap.
    - by rewrite Hi.
    - by rewrite Hj. }
  congruence.
Qed.

Lemma first_registration_later members i j k k' p p' q :
  NoDup (map fst members) → (i < j)%nat →
  members !! i = Some (k, Some p) → members !! j = Some (k', Some p') →
  object_id p = object_id p' → ¬ first_registration members k' q.
Proof.
  intros Hnodup Hlt Hi Hj Hid (j' & Hj' & Hfirst).
  assert (j' = j) as ->.
  { eapply NoDup_lookup; [done| |]; rewrite list_lookup_fmap.
    - by rewrite Hj'.
    - by rewrite Hj. }
  rewrite Hj in Hj'. injection Hj' as <-.
  by apply (Hfirst i k p).
Qed.

(** X14. The names of a module's parameters being distinct, as those of the
    keys of a dictionary are, and likewise those of its buffers, the maps that
    [ModuleHandler.__init__] builds map a name to a tensor exactly when the
    resolved module has this tensor registered under this name and under no
    earlier name.  So a name registered with [None] is in neither map, and
    of two names under which one parameter is registered, the later one is
    not in the map. *)
Theorem ModuleHandler_init_named_tensors G node device_mesh strategies_vector mh :
  ModuleHandler__init__ G node device_mesh strategies_vector = Ok mh →
  NoDup (map fst (_parameters (module mh))) →
  NoDup (map fst (_buffers (module mh))) →
  (∀ k p, named_parameters mh !! k = Some p
          ↔ first_registration (_parameters (module mh)) k p)
  ∧ (∀ k p, named_buffers mh !! k = Some p
            ↔ first_registration (_buffers (module mh)) k p)
  ∧ (∀ k, (k, None) ∈ _parameters (module mh) → named_parameters mh !! k = None)
  ∧ (∀ k, (k, None) ∈ _buffers (module mh) → named_buffers mh !! k = None)
  ∧ (∀ i j k k' p p', (i < j)%nat →
       _parameters (module mh) !! i = Some (k, Some p) →
       _parameters (module mh) !! j = Some (k', Some p') →
       object_id p = object_id p' →
       named_parameters mh !! k' = None).
Proof.
  unfold ModuleHandler__init__. intros Hinit Hparams Hbuffers.
  destruct (owning_module G) as [root|]; [|done].
  destruct (get_submodule root (target (nodes G node))) as [m|e]; [|done].
  simpl in Hinit. injection Hinit as <-. simpl in *.
  unfold named_parameters_of, named_buffers_of.
  split; [intros k p; by apply dict_of_members_NoDup|].
  split; [intros k p; by apply dict_of_members_NoDup|].
  split; [|split].
  - intros k Hin. apply eq_None_not_Some. intros [p Hget].
    apply dict_of_members_first in Hget.
    exact (first_registration_None _ k p Hparams Hin Hget).
  - intros k Hin. apply eq_None_not_Some. intros [p Hget].
    apply dict_of_members_first in Hget.
    exact (first_registration_None _ k p Hbuffers Hin Hget).
  - intros i j k k' p p' Hlt Hi Hj Hid. apply eq_None_not_Some. intros [q Hget].
    apply dict_of_members_first in Hget.
    exact (first_registration_later _ i j k k' p p' q Hparams Hlt Hi Hj Hid Hget).
Qed.

(** ** The further properties on the scenarios *)

Section MoreOnTheScenarios.
Import Scenario.

Abbreviation run_b flag :=
  (register_strategy (cls := class_b) graph oracle layout_rule handler_b flag store).
Abbreviation run_a :=
  (register_strategy (cls := class_b) graph oracle layout_rule handler_x true store).
Abbreviation run_3x8 :=
  (register_strategy (cls := class_3x8) graph oracle layout_rule handler_x false store).
Abbreviation loop_3x8 :=
  (for_each (register_generator (cls := class_3x8) graph oracle handler_x false)
            (@get_strategy_generator class_3x8 handler_x) store).
Abbreviation loop_b :=
  (for_each (register_generator (cls := class_b) graph oracle handler_b true)
            (@get_strategy_generator class_b handler_b) store).
Abbreviation invalid_layout :=
  (InvalidLayoutError "the layout cannot be realised for the shape of the tensor").

(** The strategy of [b] that asks for the replicated layout: the log has the
    entry and one call per candidate of [a], from the layout of the candidate
    to the replicated one. *)
Lemma update_resharding_cost_calls_witness :
  update_resharding_cost graph oracle handler_b (strategy_b replicated) store
  = (Ok updated_b, add_calls store calls_b)
  ∧ calls (add_calls store calls_b)
    = [Call_update_resharding_cost (strategy_b replicated);
       Call_shape_consistency shard_dim0 replicated;
       Call_shape_consistency shard_dim1 replicated]
  ∧ ∃ segs,
      calls (add_calls store calls_b)
      = calls store ++ Call_update_resharding_cost (strategy_b replicated) :: concat segs
      ∧ Forall2 (oracle_calls_aligned graph (strategy_b replicated) store)
                (predecessor_node handler_b) segs.
Proof.
  assert (update_resharding_cost graph oracle handler_b (strategy_b replicated) store
          = (Ok updated_b, add_calls store calls_b)) as Hrun by reflexivity.
  split; [exact Hrun|]. split; [reflexivity|].
  exact (update_resharding_cost_calls graph oracle handler_b
           (strategy_b replicated) store updated_b (add_calls store calls_b) Hrun).
Defined.

Lemma update_resharding_cost_keys_witness :
  NoDup (predecessor_node handler_b)
  ∧ ∃ rc, resharding_costs updated_b = Some rc
          ∧ map fst rc = KNode <$> predecessor_node handler_b.
Proof.
  assert (NoDup (predecessor_node handler_b)) as Hnodup by apply NoDup_singleton.
  split; [exact Hnodup|].
  exact (update_resharding_cost_keys graph oracle handler_b (strategy_b replicated)
           store updated_b (add_calls store calls_b) Hnodup eq_refl).
Defined.

Lemma update_resharding_cost_idempotent_witness :
  fst (update_resharding_cost graph oracle handler_b updated_b (add_calls store calls_b))
  = Ok updated_b.
Proof.
  exact (update_resharding_cost_idempotent graph oracle handler_b (strategy_b replicated)
           store updated_b (add_calls store calls_b) eq_refl).
Defined.

(** Node [e]: [a] has its vector, [p0] has not. *)
Lemma update_resharding_cost_assertion_witness :
  fst (update_resharding_cost MoreScenario.graph oracle MoreScenario.handler_e
         MoreScenario.strategy_e store)
  = Raise (AssertionError "The predecessor node p0 has no strategy vector to compute the resharding cost.")
  ∧ ∃ before P after,
      predecessor_node MoreScenario.handler_e = before ++ P :: after
      ∧ node_strategies_vector store P = None
      ∧ AssertionError "The predecessor node p0 has no strategy vector to compute the resharding cost."
        = no_strategy_vector MoreScenario.graph P
      ∧ ∀ Q, Q ∈ before → is_Some (node_strategies_vector store Q).
Proof.
  split; [reflexivity|].
  exact (update_resharding_cost_assertion MoreScenario.graph oracle MoreScenario.handler_e
           MoreScenario.strategy_e store _ eq_refl).
Defined.

Lemma update_resharding_cost_failure_witness :
  update_resharding_cost MoreScenario.graph oracle MoreScenario.handler_e
    MoreScenario.strategy_e store
  = (Raise (no_strategy_vector MoreScenario.graph p0),
     add_calls store [Call_update_resharding_cost MoreScenario.strategy_e;
                      Call_shape_consistency shard_dim0 replicated;
                      Call_shape_consistency shard_dim1 replicated])
  ∧ ∃ before P after,
      predecessor_node MoreScenario.handler_e = before ++ P :: after
      ∧ (∀ Q, Q ∈ before →
           ∃ x, fst (predecessor_sharding_specs MoreScenario.graph
                       MoreScenario.strategy_e Q store) = Ok x)
      ∧ fst (predecessor_sharding_specs MoreScenario.graph MoreScenario.strategy_e P store)
        = Raise (no_strategy_vector MoreScenario.graph p0)
      ∧ calls (add_calls store [Call_update_resharding_cost MoreScenario.strategy_e;
                                Call_shape_consistency shard_dim0 replicated;
                                Call_shape_consistency shard_dim1 replicated])
        = calls store ++ Call_update_resharding_cost MoreScenario.strategy_e
                         :: flat_map (oracle_calls_for MoreScenario.graph
                                        MoreScenario.strategy_e store) before.
Proof.
  split; [reflexivity|].
  exact (update_resharding_cost_failure MoreScenario.graph oracle MoreScenario.handler_e
           MoreScenario.strategy_e store _ _ eq_refl).
Defined.

Lemma register_strategy_false_returns_iff_witness :
  fst (run_b false) = Ok vector_b
  ∧ Forall (strategy_checks layout_rule)
      (vectors store (strategies_vector handler_b)
       ++ @all_candidates class_b handler_b (@get_strategy_generator class_b handler_b)).
Proof.
  split; [reflexivity|].
  apply (proj1 (register_strategy_false_returns_iff (cls := class_b) graph oracle
                  layout_rule handler_b store)).
  reflexivity.
Defined.

Lemma register_strategy_validates_last_witness :
  ∃ new1 checked,
    calls (snd (run_b true)) = calls store ++ new1 ++ map check_call checked
    ∧ Forall (λ ev, ¬ is_check_call ev) new1
    ∧ checked `prefix_of` checks_of (vectors (snd (run_b true))
                                            (strategies_vector handler_b))
    ∧ (∀ r, fst (run_b true) = Ok r →
         checked = checks_of (vectors (snd (run_b true))
                                      (strategies_vector handler_b))).
Proof.
  exact (register_strategy_validates_last (cls := class_b) graph oracle layout_rule
           handler_b true store).
Defined.

(** The tensor of shape (3, 8): the first layout checked is the invalid one,
    and the second is never checked. *)
Lemma register_strategy_first_failure_witness :
  loop_3x8 = (Ok tt, snd loop_3x8)
  ∧ fst run_3x8 = Raise invalid_layout
  ∧ ∃ pre entry post,
      checks_of (vectors (snd loop_3x8) (strategies_vector handler_x))
      = pre ++ entry :: post
      ∧ Forall (passes layout_rule) pre
      ∧ layout_rule entry.1 entry.2 = Raise invalid_layout
      ∧ calls (snd run_3x8) = calls (snd loop_3x8) ++ map check_call (pre ++ [entry]).
Proof.
  split; [reflexivity|]. split; [reflexivity|].
  exact (register_strategy_first_failure (cls := class_3x8) graph oracle layout_rule
           handler_x false store (snd loop_3x8) invalid_layout eq_refl eq_refl).
Defined.

Example register_strategy_first_failure_log :
  calls (snd run_3x8) = [Call_check_sharding_spec_validity shard_dim0 tensor_3x8].
Proof. reflexivity. Qed.

Lemma register_strategy_twice_witness :
  vectors (snd (register_strategy (cls := class_b) graph oracle layout_rule handler_b false
                  (snd (run_b false))))
          (strategies_vector handler_b)
  = vectors store (strategies_vector handler_b)
    ++ @all_candidates class_b handler_b (@get_strategy_generator class_b handler_b)
    ++ @all_candidates class_b handler_b (@get_strategy_generator class_b handler_b).
Proof.
  exact (register_strategy_twice (cls := class_b) graph oracle layout_rule handler_b store).
Defined.

Lemma register_strategy_alignment_witness :
  ∃ added,
    vectors (snd (run_b true)) (strategies_vector handler_b)
    = vectors store (strategies_vector handler_b) ++ added
    ∧ ∀ S P, S ∈ added → P ∈ predecessor_node handler_b →
        ∃ vec rc costs,
          node_strategies_vector (snd (run_b true)) P = Some vec
          ∧ resharding_costs S = Some rc
          ∧ dict_get (KNode P) rc = Some costs
          ∧ length costs = length (vectors (snd (run_b true)) vec).
Proof.
  apply (register_strategy_alignment (cls := class_b) graph oracle layout_rule
           handler_b store).
  intros P HP. change (P ∈ [a]) in HP. apply list_elem_of_singleton in HP as ->.
  discriminate.
Defined.

(** Node [a] has no predecessor. *)
Lemma register_strategy_no_predecessor_witness :
  predecessor_node handler_x = []
  ∧ vectors (snd run_a) (strategies_vector handler_x)
    = vectors store (strategies_vector handler_x)
      ++ map (λ c, set_resharding_costs c [])
             (@all_candidates class_b handler_x (@get_strategy_generator class_b handler_x))
  ∧ ∃ checked,
      calls (snd run_a)
      = calls store
        ++ map Call_update_resharding_cost
               (@all_candidates class_b handler_x (@get_strategy_generator class_b handler_x))
        ++ map check_call checked.
Proof.
  split; [reflexivity|].
  exact (register_strategy_no_predecessor (cls := class_b) graph oracle layout_rule
           handler_x store eq_refl).
Defined.

Lemma register_strategy_default_post_process_witness :
  vectors (snd run_3x8) (strategies_vector handler_x)
  = vectors store (strategies_vector handler_x)
    ++ concat (map generate (@get_strategy_generator class_3x8 handler_x)).
Proof.
  apply (register_strategy_default_post_process (cls := class_3x8) graph oracle
           layout_rule handler_x store).
  intros strategy. reflexivity.
Defined.

Lemma register_strategy_verdict_with_costs_witness :
  fst (run_b true) = fst (run_b false).
Proof.
  apply (register_strategy_verdict_with_costs (cls := class_b) graph oracle layout_rule
           handler_b store (snd loop_b)).
  reflexivity.
Defined.

(** The module with tied weights: [w1] and [w2] are one parameter, which the
    map has under [w1] only, and [bias] is registered with [None]. *)
Lemma ModuleHandler_init_named_tensors_witness :
  ∃ mh,
    ModuleHandler__init__ TiedScenario.graph TiedScenario.t mesh TiedScenario.vector_t
    = Ok mh
    ∧ module mh = TiedScenario.tied
    ∧ named_parameters mh !! "w1" = Some TiedScenario.shared_weight
    ∧ named_parameters mh !! "w2" = None
    ∧ named_parameters mh !! "bias" = None
    ∧ named_parameters mh !! "w3" = Some TiedScenario.own_weight
    ∧ named_buffers mh !! "steps" = Some TiedScenario.steps
    ∧ NoDup (map fst (_parameters (module mh)))
    ∧ NoDup (map fst (_buffers (module mh)))
    ∧ (∀ k p, named_parameters mh !! k = Some p
              ↔ first_registration (_parameters (module mh)) k p)
    ∧ (∀ k p, named_buffers mh !! k = Some p
              ↔ first_registration (_buffers (module mh)) k p)
    ∧ (∀ k, (k, None) ∈ _parameters (module mh) → named_parameters mh !! k = None)
    ∧ (∀ k, (k, None) ∈ _buffers (module mh) → named_buffers mh !! k = None)
    ∧ (∀ i j k k' p p', (i < j)%nat →
         _parameters (module mh) !! i = Some (k, Some p) →
         _parameters (module mh) !! j = Some (k', Some p') →
         object_id p = object_id p' →
         named_parameters mh !! k' = None).
Proof.
  eexists. split; [reflexivity|]. do 6 (split; [reflexivity|]).
  assert (NoDup (map fst (_parameters TiedScenario.tied))) as Hparams.
  { by apply (bool_decide_unpack _). }
  assert (NoDup (map fst (_buffers TiedScenario.tied))) as Hbuffers.
  { by apply (bool_decide_unpack _). }
  split; [exact Hparams|]. split; [exact Hbuffers|].
  exact (ModuleHandler_init_named_tensors TiedScenario.graph TiedScenario.t mesh
           TiedScenario.vector_t _ eq_refl Hparams Hbuffers).
Defined.
End MoreOnTheScenarios.
